(** * Contextual reminders: a shallow embedding of the reminder engine

    The development follows [contextualreminders/ctx_service.py],
    [contextualreminders/plugin.py] and [contextualreminders/types.py].
    Python dictionaries are finite maps ([gmap]), Python lists are lists,
    raised exceptions are the [Raise] branch of [result]. *)

From Stdlib Require Import ZArith Ascii String List Lia Permutation.
From stdpp Require Import base gmap list strings.

Local Open Scope string_scope.
Local Open Scope list_scope.
Local Open Scope Z_scope.

(** ** Exceptions *)

Inductive exn : Type :=
  | KeyError
  | ValueError
  | TypeError
  | OverflowError
  | JSONDecodeError.

Inductive result (A : Type) : Type :=
  | Ok (a : A)
  | Raise (e : exn).
Arguments Ok {A} a.
Arguments Raise {A} e.

Definition bind {A B : Type} (r : result A) (f : A -> result B) : result B :=
  match r with
  | Ok a => f a
  | Raise e => Raise e
  end.

Notation "x <- r ;; k" := (bind r (fun x => k))
  (at level 100, r at next level, right associativity).

(** ** The context buffer ([bot.memory[...]["context_buffer"]]) *)

(** [add_message_to_context_buffer]: the message is appended to the
    channel's list (created empty when the key is absent); when the list
    is then longer than the configured number of lines, and not empty, its
    first element is popped. *)
Definition add_message_to_context_buffer
    (maximum_buffer_lines : Z) (context_buffer : gmap string (list string))
    (channel message : string) : gmap string (list string) :=
  let context_buffer :=
    match context_buffer !! channel with
    | None => <[channel := []]> context_buffer
    | Some _ => context_buffer
    end in
  let channel_messages_buffer := default [] (context_buffer !! channel) in
  let channel_messages_buffer := channel_messages_buffer ++ [message] in
  let channel_messages_buffer :=
    if (maximum_buffer_lines <? Z.of_nat (length channel_messages_buffer))
       && (1 <=? Z.of_nat (length channel_messages_buffer))
    then tail channel_messages_buffer
    else channel_messages_buffer in
  <[channel := channel_messages_buffer]> context_buffer.

(** [capture_context_snapshot]: a plain subscript of the dictionary. *)
Definition capture_context_snapshot
    (context_buffer : gmap string (list string)) (channel_name : string)
    : result (list string) :=
  match context_buffer !! channel_name with
  | Some lines => Ok lines
  | None => Raise KeyError
  end.

(** ** Regular expressions, as [re] matches them

    A backtracking matcher in continuation-passing style: greedy
    repetitions and optional parts try the longest choice first and fall
    back when the rest of the pattern fails, alternatives are tried from
    left to right, and the captures of an abandoned attempt are lost.
    Strings are sequences of code points below 256, and the classes
    [\d] and [\s] are those of [re] on such code points: the digits [0]
    to [9]; the blanks 9 to 13, 28 to 32, 133 and 160. Inputs that hold
    other characters are outside this development. *)

Inductive cls : Type :=
  | Digit                 (* \d *)
  | Space                 (* \s *)
  | NonSpace              (* \S *)
  | Dot                   (* .  (no DOTALL flag) *)
  | Lit (c : ascii).

Definition is_digit (a : ascii) : bool :=
  let n := nat_of_ascii a in (48 <=? n)%nat && (n <=? 57)%nat.

Definition is_space (a : ascii) : bool :=
  let n := nat_of_ascii a in
  ((9 <=? n)%nat && (n <=? 13)%nat) || ((28 <=? n)%nat && (n <=? 32)%nat)
  || (n =? 133)%nat || (n =? 160)%nat.

Definition cls_match (c : cls) (a : ascii) : bool :=
  match c with
  | Digit => is_digit a
  | Space => is_space a
  | NonSpace => negb (is_space a)
  | Dot => negb (Ascii.eqb a "010"%char)
  | Lit x => Ascii.eqb a x
  end.

Inductive regex : Type :=
  | Cls (c : cls)
  | Plus (c : cls)
  | Star (c : cls)
  | Opt (r : regex)
  | Seq (r1 r2 : regex)
  | Alt (r1 r2 : regex)
  | Group (i : nat) (r : regex).

(** Number of leading characters of [s] in the class [c]. *)
Fixpoint span (c : cls) (s : string) : nat :=
  match s with
  | String a s' => if cls_match c a then S (span c s') else O
  | EmptyString => O
  end.

Fixpoint sdrop (n : nat) (s : string) : string :=
  match n, s with
  | S n', String _ s' => sdrop n' s'
  | _, _ => s
  end.

Fixpoint stake (n : nat) (s : string) : string :=
  match n, s with
  | S n', String a s' => String a (stake n' s')
  | _, _ => EmptyString
  end.

(** [greedy extra lo f] tries [f (lo + extra)], then [f (lo + extra - 1)],
    down to [f lo], and keeps the first success. *)
Fixpoint greedy {R : Type} (extra lo : nat) (f : nat -> option R) : option R :=
  match f (lo + extra)%nat with
  | Some r => Some r
  | None => match extra with
            | O => None
            | S e => greedy e lo f
            end
  end.

(** [groups()] of a match: one entry per group, [None] for a group that
    took no part in the match. *)
Abbreviation captures := (list (option string)).

Fixpoint rmatch {R : Type} (r : regex) (s : string) (caps : captures)
    (k : string -> captures -> option R) : option R :=
  match r with
  | Cls c =>
      match s with
      | String a s' => if cls_match c a then k s' caps else None
      | EmptyString => None
      end
  | Plus c =>
      match span c s with
      | O => None
      | S e => greedy e 1%nat (fun n => k (sdrop n s) caps)
      end
  | Star c => greedy (span c s) 0%nat (fun n => k (sdrop n s) caps)
  | Opt r1 =>
      match rmatch r1 s caps k with
      | Some res => Some res
      | None => k s caps
      end
  | Seq r1 r2 => rmatch r1 s caps (fun s' caps' => rmatch r2 s' caps' k)
  | Alt r1 r2 =>
      match rmatch r1 s caps k with
      | Some res => Some res
      | None => rmatch r2 s caps k
      end
  | Group i r1 =>
      rmatch r1 s caps (fun s' caps' =>
        k s' (<[i := Some (stake (String.length s - String.length s') s)]> caps'))
  end.

(** [pattern.match(s)]: anchored at the start of [s], not at its end. *)
Definition re_match (ngroups : nat) (r : regex) (s : string) : option captures :=
  rmatch r s (replicate ngroups None) (fun _ caps => Some caps).

(** ** The duration grammar ([IN_TIME_PATTERN], [IN_ARGS_PATTERN]) *)

(** [(?:\s?(\d+)u)]: an optional blank, the digits (group [i]), the unit. *)
Definition unit_field (i : nat) (u : ascii) : regex :=
  Seq (Opt (Cls Space)) (Seq (Group i (Plus Digit)) (Cls (Lit u))).

(** [(?:(\d+)u)]: the leading field of a tier takes no blank. *)
Definition lead_field (i : nat) (u : ascii) : regex :=
  Seq (Group i (Plus Digit)) (Cls (Lit u)).

Definition days_pattern : regex :=
  Group 0 (Seq (lead_field 1 "d")
          (Seq (Opt (unit_field 2 "h"))
          (Seq (Opt (unit_field 3 "m")) (Opt (unit_field 4 "s"))))).

Definition hours_pattern : regex :=
  Group 5 (Seq (lead_field 6 "h")
          (Seq (Opt (unit_field 7 "m")) (Opt (unit_field 8 "s")))).

Definition minutes_pattern : regex :=
  Group 9 (Seq (lead_field 10 "m") (Opt (unit_field 11 "s"))).

Definition seconds_pattern : regex :=
  Group 12 (lead_field 13 "s").

Definition IN_TIME_PATTERN : regex :=
  Alt days_pattern (Alt hours_pattern (Alt minutes_pattern seconds_pattern)).

Definition IN_ARGS_PATTERN : regex :=
  Seq IN_TIME_PATTERN
      (Seq (Plus Space) (Group 14 (Seq (Plus NonSpace) (Star Dot)))).

Definition IN_RE (word_line : string) : option captures :=
  re_match 15 IN_ARGS_PATTERN word_line.

(** ** Durations ([datetime.timedelta], whole seconds) *)

(** The normal form [timedelta] keeps: days and seconds with
    [0 <= seconds < 86400]. The program only builds durations of whole
    seconds, so the microseconds field is left out. *)
Record timedelta : Type := { td_days : Z; td_seconds : Z }.

Definition total_seconds (d : timedelta) : Z := td_days d * 86400 + td_seconds d.

(** [timedelta(days=, seconds=, minutes=, hours=)]; [OverflowError] when
    the normalised days leave [-999999999 .. 999999999]. *)
Definition mk_timedelta (days seconds minutes hours : Z) : result timedelta :=
  let total := days * 86400 + hours * 3600 + minutes * 60 + seconds in
  let d := total / 86400 in
  if (-999999999 <=? d) && (d <=? 999999999)
  then Ok {| td_days := d; td_seconds := total mod 86400 |}
  else Raise OverflowError.

(** [int(s)] on a string of decimal digits; [ValueError] otherwise, and
    also for a string of more than [int_max_str_digits] digits, leading
    zeros counted (the default limit of [sys.set_int_max_str_digits]). *)
Definition int_max_str_digits : Z := 4300.

Definition digit_value (a : ascii) : option Z :=
  if is_digit a then Some (Z.of_nat (nat_of_ascii a) - 48) else None.

Fixpoint int_acc (acc : Z) (s : string) : result Z :=
  match s with
  | EmptyString => Ok acc
  | String a s' =>
      match digit_value a with
      | Some v => int_acc (acc * 10 + v) s'
      | None => Raise ValueError
      end
  end.

Definition int (s : string) : result Z :=
  match s with
  | EmptyString => Raise ValueError
  | _ =>
      if int_max_str_digits <? Z.of_nat (String.length s) then Raise ValueError
      else int_acc 0 s
  end.

(** [int(i or 0)] for a group [i] that is [None] or a string. *)
Definition int_or_0 (i : option string) : result Z :=
  match i with
  | None | Some EmptyString => Ok 0
  | Some s => int s
  end.

(** Truth value of a group: [None] and the empty string are false. *)
Definition truthy (g : option string) : bool :=
  match g with
  | Some (String _ _) => true
  | _ => false
  end.

Definition group (groups : captures) (i : nat) : option string :=
  mjoin (groups !! i).

(** [parse_reminder_string]. *)
Definition parse_reminder_string (word_line : string)
    : result (timedelta * option string) :=
  match IN_RE word_line with
  | None => Raise ValueError
  | Some groups =>
      let message := group groups 14 in
      fields <-
        (if truthy (group groups 0) then
           d <- int_or_0 (group groups 1) ;; h <- int_or_0 (group groups 2) ;;
           m <- int_or_0 (group groups 3) ;; s <- int_or_0 (group groups 4) ;;
           Ok (d, h, m, s)
         else if truthy (group groups 5) then
           h <- int_or_0 (group groups 6) ;; m <- int_or_0 (group groups 7) ;;
           s <- int_or_0 (group groups 8) ;;
           Ok (0, h, m, s)
         else if truthy (group groups 9) then
           m <- int_or_0 (group groups 10) ;; s <- int_or_0 (group groups 11) ;;
           Ok (0, 0, m, s)
         else
           s <- int_or_0 (group groups 13) ;;
           Ok (0, 0, 0, s)) ;;
      let '(days, hours, minutes, seconds) := fields in
      delta <- mk_timedelta days seconds minutes hours ;;
      Ok (delta, message)
  end.

(** ** Timestamps ([datetime.datetime], naive UTC) *)

Record datetime : Type := {
  year : Z; month : Z; day : Z;
  hour : Z; minute : Z; second : Z; microsecond : Z
}.

#[global] Instance datetime_eq_dec : EqDecision datetime.
Proof. solve_decision. Defined.

Definition is_leap (y : Z) : bool :=
  (y mod 4 =? 0) && (negb (y mod 100 =? 0) || (y mod 400 =? 0)).

Definition days_in_month (y m : Z) : Z :=
  if m =? 2 then (if is_leap y then 29 else 28)
  else if (m =? 4) || (m =? 6) || (m =? 9) || (m =? 11) then 30
  else 31.

(** The ranges the [datetime] constructor enforces. *)
Definition valid_datetime (t : datetime) : bool :=
  (1 <=? year t) && (year t <=? 9999)
  && (1 <=? month t) && (month t <=? 12)
  && (1 <=? day t) && (day t <=? days_in_month (year t) (month t))
  && (0 <=? hour t) && (hour t <=? 23)
  && (0 <=? minute t) && (minute t <=? 59)
  && (0 <=? second t) && (second t <=? 59)
  && (0 <=? microsecond t) && (microsecond t <=? 999999).

(** [a < b] on timestamps: lexicographic on the fields. *)
Fixpoint lex_lt (a b : list Z) : bool :=
  match a, b with
  | x :: a', y :: b' => (x <? y) || ((x =? y) && lex_lt a' b')
  | _, _ => false
  end.

Definition fields (t : datetime) : list Z :=
  [year t; month t; day t; hour t; minute t; second t; microsecond t].

Definition datetime_lt (a b : datetime) : bool := lex_lt (fields a) (fields b).

(** Proleptic Gregorian ordinals ([_ymd2ord], [_ord2ymd]). *)
Definition days_before_year (y : Z) : Z :=
  let y := y - 1 in y * 365 + y / 4 - y / 100 + y / 400.

Fixpoint days_before_month_aux (y : Z) (n : nat) : Z :=
  match n with
  | O => 0
  | S n' => days_before_month_aux y n' + days_in_month y (Z.of_nat n)
  end.

Definition days_before_month (y m : Z) : Z :=
  days_before_month_aux y (Z.to_nat (m - 1)).

Definition ymd2ord (y m d : Z) : Z :=
  days_before_year y + days_before_month y m + d.

Definition ord2ymd (n : Z) : Z * Z * Z :=
  let n := n - 1 in
  let n400 := n / 146097 in let n := n mod 146097 in
  let n100 := n / 36524 in let n := n mod 36524 in
  let n4 := n / 1461 in let n := n mod 1461 in
  let n1 := n / 365 in let n := n mod 365 in
  let y := n400 * 400 + 1 + n100 * 100 + n4 * 4 + n1 in
  if (n1 =? 4) || (n100 =? 4) then (y - 1, 12, 31)
  else
    let leapyear := (n1 =? 3) && (negb (n4 =? 24) || (n100 =? 3)) in
    let m := Z.shiftr (n + 50) 5 in
    let preceding :=
      days_before_month 1 m + (if (2 <? m) && leapyear then 1 else 0) in
    if n <? preceding then
      let m := m - 1 in
      let preceding :=
        preceding - (days_in_month 1 m + (if (m =? 2) && leapyear then 1 else 0)) in
      (y, m, n - preceding + 1)
    else (y, m, n - preceding + 1).

Definition MAXORDINAL : Z := 3652059.

(** [t + d]: [OverflowError] when the date leaves years 1 to 9999. *)
Definition datetime_add (t : datetime) (d : timedelta) : result datetime :=
  let secs := hour t * 3600 + minute t * 60 + second t + td_seconds d in
  let days := ymd2ord (year t) (month t) (day t) + td_days d + secs / 86400 in
  let secs := secs mod 86400 in
  if (0 <? days) && (days <=? MAXORDINAL) then
    let '(y, m, dd) := ord2ymd days in
    Ok {| year := y; month := m; day := dd;
          hour := secs / 3600; minute := (secs mod 3600) / 60;
          second := secs mod 60; microsecond := microsecond t |}
  else Raise OverflowError.

(** Decimal fields of fixed width. *)
Definition digit_char (n : Z) : ascii := ascii_of_nat (48 + Z.to_nat n).

Definition pad2 (n : Z) (rest : string) : string :=
  String (digit_char (n / 10)) (String (digit_char (n mod 10)) rest).

Definition pad4 (n : Z) (rest : string) : string :=
  pad2 (n / 100) (pad2 (n mod 100) rest).

Definition pad6 (n : Z) (rest : string) : string :=
  pad2 (n / 10000) (pad4 (n mod 10000) rest).

(** [t.isoformat(timespec="seconds")]: the microseconds are dropped. *)
Definition isoformat_seconds (t : datetime) : string :=
  pad4 (year t) (String "-" (pad2 (month t) (String "-" (pad2 (day t)
    (String "T" (pad2 (hour t) (String ":" (pad2 (minute t)
      (String ":" (pad2 (second t) EmptyString)))))))))).

(** [t.isoformat()]: the microseconds are printed when they are not 0. *)
Definition isoformat (t : datetime) : string :=
  pad4 (year t) (String "-" (pad2 (month t) (String "-" (pad2 (day t)
    (String "T" (pad2 (hour t) (String ":" (pad2 (minute t)
      (String ":" (pad2 (second t)
        (if microsecond t =? 0 then EmptyString
         else String "." (pad6 (microsecond t) EmptyString)))))))))))).

(** [t.strftime("%Y-%m-%d %H:%M:%S")] ([PRETTY_TIMEFORMAT]). *)
Definition strftime_pretty (t : datetime) : string :=
  pad4 (year t) (String "-" (pad2 (month t) (String "-" (pad2 (day t)
    (String " " (pad2 (hour t) (String ":" (pad2 (minute t)
      (String ":" (pad2 (second t) EmptyString)))))))))).

(** Reading fixed-width decimal fields. *)
Definition digits2 (a b : ascii) : option Z :=
  match digit_value a, digit_value b with
  | Some x, Some y => Some (x * 10 + y)
  | _, _ => None
  end.

Definition digits4 (a b c d : ascii) : option Z :=
  match digits2 a b, digits2 c d with
  | Some x, Some y => Some (x * 100 + y)
  | _, _ => None
  end.

Definition digits3 (a b c : ascii) : option Z :=
  match digit_value a, digits2 b c with
  | Some x, Some y => Some (x * 100 + y)
  | _, _ => None
  end.

(** The time part after the separator:
    [HH], [HH:MM], [HH:MM:SS], [HH:MM:SS.fff] or [HH:MM:SS.ffffff]. *)
Definition parse_hh_mm_ss_ff (s : string) : option (Z * Z * Z * Z) :=
  match s with
  | String h1 (String h2 rest) =>
      match digits2 h1 h2, rest with
      | Some h, EmptyString => Some (h, 0, 0, 0)
      | Some h, String ":" (String m1 (String m2 rest)) =>
          match digits2 m1 m2, rest with
          | Some m, EmptyString => Some (h, m, 0, 0)
          | Some m, String ":" (String s1 (String s2 rest)) =>
              match digits2 s1 s2, rest with
              | Some sec, EmptyString => Some (h, m, sec, 0)
              | Some sec, String "." (String f1 (String f2 (String f3 EmptyString))) =>
                  match digits3 f1 f2 f3 with
                  | Some f => Some (h, m, sec, f * 1000)
                  | None => None
                  end
              | Some sec, String "." (String f1 (String f2 (String f3
                  (String f4 (String f5 (String f6 EmptyString)))))) =>
                  match digits3 f1 f2 f3, digits3 f4 f5 f6 with
                  | Some f, Some g => Some (h, m, sec, f * 1000 + g)
                  | _, _ => None
                  end
              | _, _ => None
              end
          | _, _ => None
          end
      | _, _ => None
      end
  | _ => None
  end.

(** [datetime.fromisoformat] on the texts [isoformat] emits for naive
    timestamps: [YYYY-MM-DD], then optionally one separator character and
    the time part. [ValueError] on any other text and on fields out of
    range. *)
Definition fromisoformat (s : string) : result datetime :=
  match s with
  | String y1 (String y2 (String y3 (String y4 (String "-"
      (String m1 (String m2 (String "-" (String d1 (String d2 rest))))))))) =>
      match digits4 y1 y2 y3 y4, digits2 m1 m2, digits2 d1 d2 with
      | Some y, Some m, Some d =>
          let time :=
            match rest with
            | EmptyString => Some (0, 0, 0, 0)
            | String _ rest' => parse_hh_mm_ss_ff rest'
            end in
          match time with
          | Some (hh, mm, ss, ff) =>
              let t := {| year := y; month := m; day := d;
                          hour := hh; minute := mm; second := ss;
                          microsecond := ff |} in
              if valid_datetime t then Ok t else Raise ValueError
          | None => Raise ValueError
          end
      | _, _, _ => Raise ValueError
      end
  | _ => Raise ValueError
  end.

(** ** Reminders ([types.ContextualReminder]) *)

Record ContextualReminder : Type := {
  set_at : datetime;
  due_at : datetime;
  nickname : string;
  channel : string;
  message : string;
  pastebin_url : string;
  has_context : bool;
  context_lines : list string
}.

(** The dataclass is declared with [eq=True]: [==] compares all fields. *)
#[global] Instance ContextualReminder_eq_dec : EqDecision ContextualReminder.
Proof. solve_decision. Defined.

Definition with_pastebin_url (url : string) (r : ContextualReminder)
    : ContextualReminder :=
  {| set_at := set_at r; due_at := due_at r; nickname := nickname r;
     channel := channel r; message := message r; pastebin_url := url;
     has_context := has_context r; context_lines := context_lines r |}.

(** ** Configuration ([config.ContextualRemindersSection]) *)

(** A numeric setting: an integer or [math.inf]. *)
Inductive number : Type :=
  | Int (z : Z)
  | Inf.

(** [seconds <= n] and [seconds >= n] for a whole number of seconds. *)
Definition le_number (x : Z) (n : number) : bool :=
  match n with Int z => x <=? z | Inf => true end.

Definition ge_number (x : Z) (n : number) : bool :=
  match n with Int z => z <=? x | Inf => false end.

(** [value or 0]: [None] and [0] give [0]. *)
Definition or_0 (v : option number) : number :=
  match v with
  | Some n => n
  | None => Int 0
  end.

Record settings : Type := {
  context_capture_min_duration : option number;
  context_capture_max_duration : option number;
  context_capture_chat_lines : Z
}.

Definition default_settings : settings :=
  {| context_capture_min_duration := Some (Int 2592000);
     context_capture_max_duration := Some Inf;
     context_capture_chat_lines := 20 |}.

(** ** Triggers (the fields of [sopel.trigger.Trigger] the plugin reads) *)

Record Trigger : Type := {
  sender : string;
  hostmask : string;
  nick : string;
  time : datetime
}.

(** [Identifier.is_nick]: not empty and no channel prefix ([#&+!]). *)
Definition is_nick (identifier : string) : bool :=
  match identifier with
  | EmptyString => false
  | String c _ =>
      negb (Ascii.eqb c "#" || Ascii.eqb c "&" || Ascii.eqb c "+" || Ascii.eqb c "!")
  end.

(** [get_channel_from_sender]. *)
Definition get_channel_from_sender (trigger : Trigger) : string :=
  let channel := sender trigger in
  if is_nick (sender trigger) then "PRIVMSG-" +:+ hostmask trigger
  else channel.

(** [trigger.sender] is a [sopel.tools.Identifier]: a string that hashes
    and compares by its lower-cased form, [Identifier._lower], which is
    [str.lower] followed by the replacement of the brackets, the backslash
    and the tilde by the braces, the bar and the caret. *)
Definition char_lower (a : ascii) : ascii :=
  let n := nat_of_ascii a in
  if ((65 <=? n) && (n <=? 90)
      || (192 <=? n) && (n <=? 222) && negb (n =? 215))%nat
  then ascii_of_nat (n + 32)
  else a.

Definition char_rfc (a : ascii) : ascii :=
  if Ascii.eqb a "["%char then "{"%char
  else if Ascii.eqb a "]"%char then "}"%char
  else if Ascii.eqb a "092"%char then "|"%char
  else if Ascii.eqb a "~"%char then "^"%char
  else a.

Fixpoint identifier_lower (identifier : string) : string :=
  match identifier with
  | EmptyString => EmptyString
  | String a rest => String (char_rfc (char_lower a)) (identifier_lower rest)
  end.

(** The string under which [create_reminder] subscripts the context
    buffer, a dictionary whose keys are plain strings: the plain string
    ["PRIVMSG"] as it is; the identifier [trigger.sender] finds the key
    equal to its lower-cased form and no other, since the subscript looks
    the key up by the identifier's hash, the hash of the lower-cased form
    (two different strings are taken to hash differently). *)
Definition snapshot_key (trigger : Trigger) : string :=
  if is_nick (sender trigger) then "PRIVMSG"
  else identifier_lower (sender trigger).

(** [create_reminder]; [utcnow] is the clock read for the snapshot header.
    The [channel] argument is overwritten on entry, as in the source. *)
Definition create_reminder (conf : settings)
    (context_buffer : gmap string (list string)) (utcnow : datetime)
    (trigger : Trigger) (time_delta : timedelta) (channel message : string)
    : result ContextualReminder :=
  let channel := if is_nick (sender trigger) then "PRIVMSG" else sender trigger in
  due <- datetime_add (time trigger) time_delta ;;
  let reminder :=
    {| set_at := time trigger; due_at := due; nickname := nick trigger;
       channel := channel; message := message; pastebin_url := "";
       has_context := false; context_lines := [] |} in
  let conf_min_delta := or_0 (context_capture_min_duration conf) in
  let conf_max_delta := or_0 (context_capture_max_duration conf) in
  if ge_number (total_seconds time_delta) conf_min_delta
     && le_number (total_seconds time_delta) conf_max_delta
  then
    let snapshot_ts := strftime_pretty utcnow in
    snapshot <- capture_context_snapshot context_buffer (snapshot_key trigger) ;;
    Ok {| set_at := set_at reminder; due_at := due_at reminder;
          nickname := nickname reminder; channel := channel;
          message := message; pastebin_url := "";
          has_context := true;
          context_lines :=
            ["Snapshot for " +:+ channel +:+ " created at " +:+ snapshot_ts
               +:+ " (UTC)";
             "---------------------------------------------------------------"]
            ++ snapshot
            ++ ["-----------------------------//--------------------------------"] |}
  else Ok reminder.

(** The idiom of [persist] and of the loading loop:
    [if channel not in reminders: reminders[channel] = []] and then
    [reminders[channel].append(reminder)]. *)
Definition append_to_channel (reminders : gmap string (list ContextualReminder))
    (channel : string) (reminder : ContextualReminder)
    : gmap string (list ContextualReminder) :=
  let reminders :=
    match reminders !! channel with
    | None => <[channel := []]> reminders
    | Some _ => reminders
    end in
  <[channel := default [] (reminders !! channel) ++ [reminder]]> reminders.

(** [persist], the in-memory part: the reminder is appended under the key
    the caller computed (the write to the file follows, below). *)
Definition persist (reminders : gmap string (list ContextualReminder))
    (channel : string) (reminder : ContextualReminder)
    : gmap string (list ContextualReminder) :=
  append_to_channel reminders channel reminder.

(** [get_formatted_reminder_message]. *)
Definition get_formatted_reminder_message (reminder : ContextualReminder) : string :=
  if has_context reminder && (0 <? Z.of_nat (String.length (pastebin_url reminder)))
  then message reminder +:+ " (More at " +:+ pastebin_url reminder +:+ ")"
  else message reminder.

(** ** The persistence file

    A JSON document as [json.load] returns it: objects are dictionaries,
    arrays are lists, a number is an [int] or, written with a fraction or
    an exponent, a [float], kept here as it is written. The text of the
    file is not modelled further: a file either decodes to a document or
    makes [json.load] raise. *)

Local Unset Elimination Schemes.
Inductive json : Type :=
  | JNull
  | JBool (b : bool)
  | JNum (z : Z)
  | JFloat (literal : string)
  | JStr (s : string)
  | JArr (l : list json)
  | JObj (m : gmap string json).
Local Set Elimination Schemes.

Inductive file_contents : Type :=
  | NotJson (text : string)
  | Document (doc : json).

Definition json_load (f : file_contents) : result json :=
  match f with
  | NotJson _ => Raise JSONDecodeError
  | Document doc => Ok doc
  end.

Inductive log_level : Type := LogDebug | LogInfo | LogWarning | LogError.

(** [ContextualReminder.serialize]. *)
Definition serialize (r : ContextualReminder) : json :=
  JObj (list_to_map
    [("set_at", JStr (isoformat_seconds (set_at r)));
     ("due_at", JStr (isoformat_seconds (due_at r)));
     ("nickname", JStr (nickname r));
     ("channel", JStr (channel r));
     ("message", JStr (message r));
     ("pastebin_url", JStr (pastebin_url r));
     ("has_context", JBool (has_context r));
     ("context_lines", JArr (JStr <$> context_lines r))]).

(** The document [save_reminders_to_persistence] hands to [json.dump],
    after [json_serialiser] has converted reminders and timestamps. *)
Definition output_data (utcnow : datetime)
    (reminders : gmap string (list ContextualReminder)) : json :=
  JObj (list_to_map
    [("reminders", JObj ((fun l => JArr (serialize <$> l)) <$> reminders));
     ("saved_at", JStr (isoformat utcnow));
     ("version", JNum 1)]).

(** [save_reminders_to_persistence]: the document is written to a
    temporary file that then replaces the persistence file; on [OSError]
    ([write_ok = false]) the error is logged and the file stays as it was. *)
Definition save_reminders_to_persistence (write_ok : bool) (utcnow : datetime)
    (persistence_file : option file_contents)
    (reminders : gmap string (list ContextualReminder))
    : option file_contents * list log_level :=
  if write_ok then (Some (Document (output_data utcnow reminders)), [])
  else (persistence_file, [LogError]).

(** [needle in haystack] for two strings. *)
Fixpoint str_contains (needle haystack : string) : bool :=
  String.prefix needle haystack
  || match haystack with
     | EmptyString => false
     | String _ rest => str_contains needle rest
     end.

(** ["reminders" in contents]: a key test on a dictionary, a membership
    test on a list, a substring test on a string, [TypeError] otherwise. *)
Definition contains_reminders (contents : json) : result bool :=
  match contents with
  | JObj m => Ok (bool_decide (is_Some (m !! "reminders")))
  | JArr l => Ok (existsb (fun j => match j with
                                    | JStr s => String.eqb s "reminders"
                                    | _ => false
                                    end) l)
  | JStr s => Ok (str_contains "reminders" s)
  | _ => Raise TypeError
  end.

(** [data[key]] for a string [key]. *)
Definition subscript (data : json) (key : string) : result json :=
  match data with
  | JObj m => match m !! key with
              | Some v => Ok v
              | None => Raise KeyError
              end
  | _ => Raise TypeError
  end.

(** The values the [for] loops of the loader run over. *)
Definition iterate (data : json) : result (list json) :=
  match data with
  | JArr l => Ok l
  | JObj m => Ok (JStr <$> (map_to_list m).*1)
  | JStr s => Ok ((fun c => JStr (String c EmptyString)) <$> list_ascii_of_string s)
  | _ => Raise TypeError
  end.

(** The record is typed here, the dataclass is not: where the source
    would store a field of an unexpected JSON type unchecked, the model
    raises [TypeError]. *)
Definition as_str (j : json) : result string :=
  match j with JStr s => Ok s | _ => Raise TypeError end.

Definition as_bool (j : json) : result bool :=
  match j with JBool b => Ok b | _ => Raise TypeError end.

Fixpoint as_str_list (l : list json) : result (list string) :=
  match l with
  | [] => Ok []
  | j :: l' => s <- as_str j ;; rest <- as_str_list l' ;; Ok (s :: rest)
  end.

Definition as_lines (j : json) : result (list string) :=
  match j with JArr l => as_str_list l | _ => Raise TypeError end.

(** The [ContextualReminder(...)] call of the loader; the arguments are
    evaluated in the order written. *)
Definition decode_reminder (data_reminder : json) : result ContextualReminder :=
  j <- subscript data_reminder "set_at" ;; s <- as_str j ;;
  set_at_ <- fromisoformat s ;;
  j <- subscript data_reminder "due_at" ;; s <- as_str j ;;
  due_at_ <- fromisoformat s ;;
  j <- subscript data_reminder "nickname" ;; nickname_ <- as_str j ;;
  j <- subscript data_reminder "channel" ;; channel_ <- as_str j ;;
  j <- subscript data_reminder "message" ;; message_ <- as_str j ;;
  j <- subscript data_reminder "pastebin_url" ;; pastebin_url_ <- as_str j ;;
  j <- subscript data_reminder "has_context" ;; has_context_ <- as_bool j ;;
  j <- subscript data_reminder "context_lines" ;; context_lines_ <- as_lines j ;;
  Ok {| set_at := set_at_; due_at := due_at_; nickname := nickname_;
        channel := channel_; message := message_;
        pastebin_url := pastebin_url_; has_context := has_context_;
        context_lines := context_lines_ |}.

(** The inner loop: [for data_reminder in contents["reminders"][channel]]. *)
Definition load_channel (channel : string) (value : json)
    (acc : result (gmap string (list ContextualReminder)))
    : result (gmap string (list ContextualReminder)) :=
  reminders <- acc ;;
  items <- iterate value ;;
  foldl (fun acc data_reminder =>
           reminders <- acc ;;
           reminder <- decode_reminder data_reminder ;;
           Ok (append_to_channel reminders channel reminder))
        (Ok reminders) items.

(** The outer loop: [for channel in contents["reminders"]]. Over a list or
    a string the subscript [contents["reminders"][channel]] raises as soon
    as there is an element to visit. *)
Definition load_channels (value : json)
    : result (gmap string (list ContextualReminder)) :=
  match value with
  | JObj m => map_fold load_channel (Ok ∅) m
  | JArr [] | JStr EmptyString => Ok ∅
  | _ => Raise TypeError
  end.

(** [load_reminders_from_persistence]: the log records written, and the
    store returned or the exception raised. [None] is a missing file. *)
Definition load_reminders_from_persistence (persistence_file : option file_contents)
    : list log_level * result (gmap string (list ContextualReminder)) :=
  match persistence_file with
  | None => ([LogInfo], Ok ∅)
  | Some file =>
      match json_load file with
      | Raise e => ([LogInfo], Raise e)
      | Ok contents =>
          match contains_reminders contents with
          | Raise e => ([LogInfo], Raise e)
          | Ok false => ([LogInfo; LogWarning], Ok ∅)
          | Ok true =>
              match (value <- subscript contents "reminders" ;;
                     load_channels value) with
              | Raise e => ([LogInfo], Raise e)
              | Ok reminders => ([LogInfo; LogInfo], Ok reminders)
              end
          end
      end
  end.

(** ** The delivery scheduler ([plugin.check_ctx_reminder_jobs]) *)

(** What the scheduler reads of the bot: the connection flag, the joined
    channels with the nicknames present in each, and the hostmask of every
    known user. Nicknames are compared as plain strings. *)
Record presence : Type := {
  connected : bool;
  channels : gmap string (gset string);
  users : gmap string string
}.

(** [can_deliver_reminder]: [channel[0:7]] and [channel[8:]] are slices. *)
Definition can_deliver_reminder (bot : presence) (reminder : ContextualReminder)
    : bool :=
  let channel := channel reminder in
  if String.eqb (stake 7 channel) "PRIVMSG" then
    let user_hostmask := sdrop 8 channel in
    existsb (fun user => String.eqb user_hostmask user.2) (map_to_list (users bot))
  else
    match channels bot !! channel with
    | Some bot_channel => bool_decide (nickname reminder ∈ bot_channel)
    | None => false
    end.

(** [l.remove(x)]: the first element equal to [x] goes. *)
Fixpoint remove_first (x : ContextualReminder) (l : list ContextualReminder)
    : list ContextualReminder :=
  match l with
  | [] => []
  | y :: l' => if decide (y = x) then l' else y :: remove_first x l'
  end.

(** The condition of the inner [if]. *)
Definition due_and_deliverable (bot : presence) (reminders_as_at : datetime)
    (reminder : ContextualReminder) : bool :=
  datetime_lt (due_at reminder) reminders_as_at && can_deliver_reminder bot reminder.

(** [for reminder in channel_reminders: ...] with the list shrinking under
    the loop: the iterator keeps an index, yields [l[i]] while [i < len(l)]
    and then moves to [i + 1], whatever happened to the list meanwhile.
    Returns the reminders delivered, in order, and the list left. *)
Fixpoint channel_loop (fuel : nat) (bot : presence) (reminders_as_at : datetime)
    (i : nat) (channel_reminders delivered : list ContextualReminder)
    : list ContextualReminder * list ContextualReminder :=
  match fuel with
  | O => (delivered, channel_reminders)
  | S fuel' =>
      match channel_reminders !! i with
      | None => (delivered, channel_reminders)
      | Some reminder =>
          if due_and_deliverable bot reminders_as_at reminder then
            channel_loop fuel' bot reminders_as_at (S i)
              (remove_first reminder channel_reminders) (delivered ++ [reminder])
          else
            channel_loop fuel' bot reminders_as_at (S i) channel_reminders delivered
      end
  end.

(** One pass over one channel's list; the index cannot pass the length of
    the list in more steps than the list is long ([channel_loop_fuel]). *)
Definition check_channel (bot : presence) (reminders_as_at : datetime)
    (channel_reminders : list ContextualReminder)
    : list ContextualReminder * list ContextualReminder :=
  channel_loop (length channel_reminders) bot reminders_as_at 0
    channel_reminders [].

(** A call of [bot.say] or [bot.reply]. *)
Inductive bot_call : Type :=
  | Say (text recipient : string)
  | Reply (text destination reply_to : string).

Definition deliver (channel : string) (reminder : ContextualReminder) : bot_call :=
  let reminder_text := get_formatted_reminder_message reminder in
  if String.eqb (stake 7 channel) "PRIVMSG"
  then Say reminder_text (nickname reminder)
  else Reply reminder_text channel (nickname reminder).

Record job_outcome : Type := {
  delivered_by_channel : gmap string (list ContextualReminder);
  active_reminders : gmap string (list ContextualReminder);
  is_dirty : bool
}.

(** [check_ctx_reminder_jobs]: nothing happens while the bot is not
    connected or has joined no channel; otherwise every channel's list is
    scanned. The calls made for a channel are [deliver channel] of the
    reminders delivered there. *)
Definition check_ctx_reminder_jobs (bot : presence) (reminders_as_at : datetime)
    (reminders : gmap string (list ContextualReminder)) : job_outcome :=
  if negb (connected bot) || (size (channels bot) =? 0)%nat then
    {| delivered_by_channel := ∅; active_reminders := reminders;
       is_dirty := false |}
  else
    let outcome := check_channel bot reminders_as_at <$> reminders in
    let delivered := fst <$> outcome in
    {| delivered_by_channel := delivered;
       active_reminders := snd <$> outcome;
       is_dirty :=
         map_fold (fun _ l dirty => dirty || negb (bool_decide (l = []))) false
           delivered |}.

(** ** The context publisher

    The publisher hands reminder objects around: the lists returned by
    [check_upcoming_reminders] hold the very objects of the store, and
    [create_pastebin_entries] assigns to their [pastebin_url]. Objects are
    therefore modelled as references into a heap here. *)

Definition UPCOMING_REMINDERS_WITH_CONTEXT_PASTEBIN_INTERVAL : Z := 3600.

(** Microseconds since the start of year 1, for timestamp differences. *)
Definition to_microseconds (t : datetime) : Z :=
  ((ymd2ord (year t) (month t) (day t) * 86400
    + hour t * 3600 + minute t * 60 + second t) * 1000000) + microsecond t.

(** The selection test of [check_upcoming_reminders]. *)
Definition is_upcoming (current_ts : datetime) (reminder : ContextualReminder)
    : bool :=
  (to_microseconds (due_at reminder) - to_microseconds current_ts
     <? UPCOMING_REMINDERS_WITH_CONTEXT_PASTEBIN_INTERVAL * 1000000)
  && has_context reminder
  && (Z.of_nat (String.length (pastebin_url reminder)) =? 0).

(** [check_upcoming_reminders]: a key is created only for a channel with
    at least one selected reminder. *)
Definition check_upcoming_reminders (heap : gmap nat ContextualReminder)
    (active : gmap string (list nat)) (current_ts : datetime)
    : gmap string (list nat) :=
  omap (fun refs =>
          let selected :=
            List.filter (fun ref => match heap !! ref with
                                    | Some reminder => is_upcoming current_ts reminder
                                    | None => false
                                    end) refs in
          match selected with
          | [] => None
          | _ => Some selected
          end) active.

(** [create_pastebin_url]: the paste service answers the [n]-th call of a
    run with a full URL or without one ([ValueError]). The text sent is
    the context lines joined by line feeds. *)
Definition joined_context (reminder : ContextualReminder) : string :=
  String.concat (String "010" EmptyString) (context_lines reminder).

(** The inner loop of [create_pastebin_entries] over one channel's list:
    the heap, the number of calls made so far, or the exception. The
    assignments made before a failure stay in the heap. *)
Fixpoint upload_channel (send : nat -> string -> option string)
    (refs : list nat) (heap : gmap nat ContextualReminder) (calls : nat)
    : gmap nat ContextualReminder * nat * option exn :=
  match refs with
  | [] => (heap, calls, None)
  | ref :: refs' =>
      match heap !! ref with
      | Some reminder =>
          if (Z.of_nat (String.length (pastebin_url reminder)) =? 0) then
            match send calls (joined_context reminder) with
            | Some full_url =>
                upload_channel send refs'
                  (<[ref := with_pastebin_url full_url reminder]> heap) (S calls)
            | None => (heap, S calls, Some ValueError)
            end
          else upload_channel send refs' heap calls
      | None => upload_channel send refs' heap calls
      end
  end.

(** [create_pastebin_entries]. *)
Definition create_pastebin_entries (send : nat -> string -> option string)
    (heap : gmap nat ContextualReminder) (upcoming_reminders : gmap string (list nat))
    : gmap nat ContextualReminder * option exn :=
  let '(heap, _, failure) :=
    map_fold (fun _ refs state =>
                match state with
                | (heap, calls, None) => upload_channel send refs heap calls
                | failed => failed
                end) (heap, O, None) upcoming_reminders in
  (heap, failure).

(** The innermost loop of [update_reminders_pastebin_url]:
    [for updated_reminder in updated_reminders[channel]], left at the
    first match. *)
Fixpoint reconcile_one (ref : nat) (updated : list nat)
    (heap : gmap nat ContextualReminder) : gmap nat ContextualReminder :=
  match updated with
  | [] => heap
  | updated_ref :: updated' =>
      match heap !! ref, heap !! updated_ref with
      | Some reminder, Some updated_reminder =>
          if decide (reminder = updated_reminder) then
            <[ref := with_pastebin_url (pastebin_url updated_reminder) reminder]> heap
          else reconcile_one ref updated' heap
      | _, _ => reconcile_one ref updated' heap
      end
  end.

(** [update_reminders_pastebin_url], the in-memory part. *)
Definition update_reminders_pastebin_url (heap : gmap nat ContextualReminder)
    (active updated_reminders : gmap string (list nat))
    : gmap nat ContextualReminder :=
  if (size updated_reminders =? 0)%nat then heap
  else
    map_fold (fun channel refs heap =>
                match updated_reminders !! channel with
                | Some updated => foldl (fun heap ref => reconcile_one ref updated heap) heap refs
                | None => heap
                end) heap active.

(** The reminders of a store of references, read through the heap. *)
Definition store_values (heap : gmap nat ContextualReminder)
    (active : gmap string (list nat)) : gmap string (list ContextualReminder) :=
  (fun refs : list nat => omap (fun ref => heap !! ref) refs) <$> active.

(** ** Predicates and derived operations used in the statements *)

Definition within_capacity (cap : Z) (context_buffer : gmap string (list string))
    : Prop :=
  forall channel lines,
    context_buffer !! channel = Some lines -> Z.of_nat (length lines) <= cap.

(** The events the buffer sees: a channel and a formatted line. *)
Definition add_messages (cap : Z) (context_buffer : gmap string (list string))
    (events : list (string * string)) : gmap string (list string) :=
  foldl (fun buffer event =>
           add_message_to_context_buffer cap buffer event.1 event.2)
        context_buffer events.

(** The identifier [create_reminder] stores in the reminder. *)
Definition creation_channel (trigger : Trigger) : string :=
  if is_nick (sender trigger) then "PRIVMSG" else sender trigger.

(** The capture window [[min, max]] of the configuration, bounds included. *)
Definition in_capture_window (conf : settings) (seconds : Z) : Prop :=
  match or_0 (context_capture_min_duration conf),
        or_0 (context_capture_max_duration conf) with
  | Int lo, Int hi => lo <= seconds <= hi
  | Int lo, Inf => lo <= seconds
  | Inf, _ => False
  end.

(** Sample data. *)
Definition sample_time : datetime :=
  {| year := 2024; month := 1; day := 15; hour := 10; minute := 0;
     second := 0; microsecond := 250000 |}.

Definition alice_trigger : Trigger :=
  {| sender := "alice"; hostmask := "alice!al@host-a.example";
     nick := "alice"; time := sample_time |}.

Definition bob_trigger : Trigger :=
  {| sender := "bob"; hostmask := "bob!bo@host-b.example";
     nick := "bob"; time := sample_time |}.

Definition channel_trigger : Trigger :=
  {| sender := "#rocq"; hostmask := "alice!al@host-a.example";
     nick := "alice"; time := sample_time |}.

Definition one_hour : timedelta := {| td_days := 0; td_seconds := 3600 |}.
Definition thirty_days : timedelta := {| td_days := 30; td_seconds := 0 |}.

Definition sample_buffer : gmap string (list string) :=
  {[ "#rocq" := ["[2024-01-15 09:59:58] < alice> hello"] ]}.

Definition sample_due : datetime :=
  {| year := 2024; month := 2; day := 14; hour := 10; minute := 0;
     second := 0; microsecond := 250000 |}.

Definition sample_reminder : ContextualReminder :=
  {| set_at := sample_time; due_at := sample_due; nickname := "alice";
     channel := "#rocq"; message := "renew the certificate";
     pastebin_url := ""; has_context := true;
     context_lines := ["Snapshot for #rocq created at 2024-01-15 10:00:00 (UTC)";
                       "---------------------------------------------------------------";
                       "[2024-01-15 09:59:58] < alice> hello";
                       "-----------------------------//--------------------------------"] |}.

Definition sample_url : string := "https://paste.example/?5f2a#key".

(** A store whose reminder was uploaded from a copy: object 0 is the
    stored reminder, object 1 an equal reminder that received the URL. *)
Definition copied_heap : gmap nat ContextualReminder :=
  {[ 0%nat := sample_reminder;
     1%nat := with_pastebin_url sample_url sample_reminder ]}.

Definition sample_active : gmap string (list nat) := {[ "#rocq" := [0%nat] ]}.
Definition copied_updated : gmap string (list nat) := {[ "#rocq" := [1%nat] ]}.

(** Ten minutes before [sample_due]. *)
Definition sample_now : datetime :=
  {| year := 2024; month := 2; day := 14; hour := 9; minute := 50;
     second := 0; microsecond := 0 |}.

(** The list a store holds for a channel ([[]] when the key is absent). *)
Definition channel_list (reminders : gmap string (list ContextualReminder))
    (channel : string) : list ContextualReminder :=
  default [] (reminders !! channel).

(** Successive runs of [check_ctx_reminder_jobs], each with the presence
    and the clock it finds; the deliveries are collected per channel. *)
Fixpoint run_jobs (runs : list (presence * datetime))
    (reminders delivered : gmap string (list ContextualReminder))
    : gmap string (list ContextualReminder) * gmap string (list ContextualReminder) :=
  match runs with
  | [] => (delivered, reminders)
  | (bot, reminders_as_at) :: runs' =>
      let outcome := check_ctx_reminder_jobs bot reminders_as_at reminders in
      run_jobs runs' (active_reminders outcome)
        (union_with (fun earlier later => Some (earlier ++ later))
           delivered (delivered_by_channel outcome))
  end.

(** A run that is not skipped, in which [reminder] passes the test. *)
Definition run_reaches (reminder : ContextualReminder) (run : presence * datetime)
    : Prop :=
  connected run.1 = true
  /\ size (channels run.1) <> 0%nat
  /\ due_and_deliverable run.1 run.2 reminder = true.

Definition sample_bot : presence :=
  {| connected := true;
     channels := {[ "#rocq" := {[ "alice"; "bob" ]} ]};
     users := {[ "alice" := "alice!al@host-a.example";
                 "bob" := "bob!bo@host-b.example" ]} |}.

Definition channel_reminder (text : string) : ContextualReminder :=
  {| set_at := sample_time; due_at := sample_due; nickname := "alice";
     channel := "#rocq"; message := text; pastebin_url := "";
     has_context := false; context_lines := [] |}.

(** One second after [sample_due]. *)
Definition sample_late : datetime :=
  {| year := 2024; month := 2; day := 14; hour := 10; minute := 0;
     second := 1; microsecond := 250000 |}.

(** A timestamp cut to whole seconds, and a reminder as it comes back
    from the file. *)
Definition whole_seconds (t : datetime) : datetime :=
  {| year := year t; month := month t; day := day t; hour := hour t;
     minute := minute t; second := second t; microsecond := 0 |}.

Definition reloaded_reminder (r : ContextualReminder) : ContextualReminder :=
  {| set_at := whole_seconds (set_at r); due_at := whole_seconds (due_at r);
     nickname := nickname r; channel := channel r; message := message r;
     pastebin_url := pastebin_url r; has_context := has_context r;
     context_lines := context_lines r |}.

(** A store as it comes back from the file: a channel without reminders
    has no key. *)
Definition reloaded (reminders : gmap string (list ContextualReminder))
    : gmap string (list ContextualReminder) :=
  omap (fun l : list ContextualReminder =>
          match l with
          | [] => None
          | _ => Some (reloaded_reminder <$> l)
          end) reminders.

(** Every timestamp of the store is a [datetime] value. *)
Definition valid_store (reminders : gmap string (list ContextualReminder)) : Prop :=
  forall c l r, reminders !! c = Some l -> r ∈ l ->
    valid_datetime (set_at r) = true /\ valid_datetime (due_at r) = true.

(** Save the store (the write succeeds), then load the file. *)
Definition save_then_load (utcnow : datetime)
    (persistence_file : option file_contents)
    (reminders : gmap string (list ContextualReminder))
    : list log_level * result (gmap string (list ContextualReminder)) :=
  load_reminders_from_persistence
    (save_reminders_to_persistence true utcnow persistence_file reminders).1.

Definition sample_store : gmap string (list ContextualReminder) :=
  {[ "#rocq" := [sample_reminder] ]}.

Definition emptied_store : gmap string (list ContextualReminder) :=
  {[ "#rocq" := [] ]}.

(** ** Duration expressions, as texts

    The inputs the duration grammar describes, built from their parts:
    a leading field (digits and a unit) and, for each smaller unit, an
    optional field that may start with one blank. *)

Record field : Type := { blank : option ascii; digits : string }.

(** A field followed by [rest]; nothing for a field left out. *)
Definition render_field (f : option field) (u : ascii) (rest : string) : string :=
  match f with
  | None => rest
  | Some f =>
      match blank f with
      | Some c => String c (digits f +:+ String u rest)
      | None => digits f +:+ String u rest
      end
  end.

Inductive duration_expression : Type :=
  | Days (d : string) (h m s : option field)
  | Hours (h : string) (m s : option field)
  | Minutes (m : string) (s : option field)
  | Seconds (s : string).

(** The text of an expression, followed by [rest]. *)
Definition render (e : duration_expression) (rest : string) : string :=
  match e with
  | Days d h m s =>
      d +:+ String "d" (render_field h "h" (render_field m "m"
                          (render_field s "s" rest)))
  | Hours h m s =>
      h +:+ String "h" (render_field m "m" (render_field s "s" rest))
  | Minutes m s => m +:+ String "m" (render_field s "s" rest)
  | Seconds s => s +:+ String "s" rest
  end.

Fixpoint all_chars (p : ascii -> bool) (s : string) : bool :=
  match s with
  | EmptyString => true
  | String a s' => p a && all_chars p s'
  end.

(** A non-empty string of decimal digits, and the number it denotes. *)
Definition is_digits (s : string) : Prop :=
  s <> EmptyString /\ all_chars is_digit s = true.

Definition decimal_value (s : string) : Z :=
  fold_left (fun acc a => acc * 10 + (Z.of_nat (nat_of_ascii a) - 48))
            (list_ascii_of_string s) 0.

Definition field_ok (f : option field) : Prop :=
  match f with
  | None => True
  | Some f =>
      is_digits (digits f)
      /\ match blank f with
         | Some c => is_space c = true
         | None => True
         end
  end.

Definition well_formed (e : duration_expression) : Prop :=
  match e with
  | Days d h m s => is_digits d /\ field_ok h /\ field_ok m /\ field_ok s
  | Hours h m s => is_digits h /\ field_ok m /\ field_ok s
  | Minutes m s => is_digits m /\ field_ok s
  | Seconds s => is_digits s
  end.

Definition field_value (f : option field) : Z :=
  match f with
  | None => 0
  | Some f => decimal_value (digits f)
  end.

(** The duration an expression denotes, in seconds: the sum of the fields
    of its tier, a field left out counting for nothing. *)
Definition expression_seconds (e : duration_expression) : Z :=
  match e with
  | Days d h m s =>
      decimal_value d * 86400 + field_value h * 3600 + field_value m * 60
      + field_value s
  | Hours h m s => decimal_value h * 3600 + field_value m * 60 + field_value s
  | Minutes m s => decimal_value m * 60 + field_value s
  | Seconds s => decimal_value s
  end.

(** Digit strings [int] reads: no longer than [int_max_str_digits]. *)
Definition within_limit (ds : string) : Prop :=
  Z.of_nat (String.length ds) <= int_max_str_digits.

Definition field_within_limit (f : option field) : Prop :=
  match f with
  | None => True
  | Some f => within_limit (digits f)
  end.

Definition within_int_limit (e : duration_expression) : Prop :=
  match e with
  | Days d h m s =>
      within_limit d /\ field_within_limit h /\ field_within_limit m
      /\ field_within_limit s
  | Hours h m s => within_limit h /\ field_within_limit m /\ field_within_limit s
  | Minutes m s => within_limit m /\ field_within_limit s
  | Seconds s => within_limit s
  end.

(** A message as the pattern delimits it: not empty, not starting with a
    blank, without a line feed; [after] is what follows it in the input,
    nothing or a line feed and more. *)
Definition message_ok (msg : string) : Prop :=
  match msg with
  | EmptyString => False
  | String c _ =>
      is_space c = false
      /\ all_chars (fun a => negb (Ascii.eqb a "010")) msg = true
  end.

Definition ends_message (after : string) : Prop :=
  match after with
  | EmptyString => True
  | String c _ => c = "010"%char
  end.

Definition is_blanks (ws : string) : Prop :=
  ws <> EmptyString /\ all_chars is_space ws = true.

(** Whether digits followed by the unit [u] stand at the start of [s],
    and whether a field of unit [u] can be read at the start of [s], with
    or without its blank. *)
Definition field_ahead (u : ascii) (s : string) : bool :=
  match span Digit s with
  | O => false
  | n => match sdrop n s with
         | String b _ => Ascii.eqb b u
         | EmptyString => false
         end
  end.

Definition no_field (u : ascii) (s : string) : Prop :=
  field_ahead u s = false
  /\ match s with
     | String c s' => is_space c = true -> field_ahead u s' = false
     | EmptyString => True
     end.

(** The expression is the longest the pattern reads at the start of the
    input: none of the fields it leaves out at its end can be read where
    [rest], the blanks and the message, starts. *)
Definition unextendable (e : duration_expression) (rest : string) : Prop :=
  match e with
  | Days _ h m s =>
      (h = None -> m = None -> s = None -> no_field "h" rest)
      /\ (m = None -> s = None -> no_field "m" rest)
      /\ (s = None -> no_field "s" rest)
  | Hours _ m s =>
      (m = None -> s = None -> no_field "m" rest)
      /\ (s = None -> no_field "s" rest)
  | Minutes _ s => s = None -> no_field "s" rest
  | Seconds _ => True
  end.

(** The captures after an optional field. *)
Definition field_caps (i : nat) (f : option field) (caps : captures) : captures :=
  match f with
  | Some f => <[i := Some (digits f)]> caps
  | None => caps
  end.

(** The expression [2h 30m], and a message of two lines. *)
Definition two_hours_thirty : duration_expression :=
  Hours "2" (Some {| blank := Some " "%char; digits := "30" |}) None.

Definition two_line_message : string := "a" +:+ String "010" "b".

(** A string of [n] digits [1]. *)
Fixpoint ones (n : nat) : string :=
  match n with
  | O => EmptyString
  | S n => String "1" (ones n)
  end.

Definition ten_minutes : duration_expression := Minutes "10" None.

Definition one_day : duration_expression := Days "1" None None None.

(** ** Statements about any input of [parse_reminder_string] *)

Definition no_line_feed (s : string) : Prop :=
  all_chars (fun a => negb (Ascii.eqb a "010")) s = true.

(** ** Statements about the context buffer and its keys *)

(** The lines of the events of one channel, oldest first. *)
Definition lines_of (channel : string) (events : list (string * string))
    : list string :=
  (filter (fun event => event.1 = channel) events).*2.

(** The last [n] elements of a list. *)
Definition most_recent {A} (n : nat) (l : list A) : list A :=
  drop (length l - n) l.

(** ** [plugin.capture_message_in_buffer] *)

(** Privilege levels of [sopel.plugin]. *)
Definition VOICE : Z := 1.
Definition OP : Z := 4.
Definition ADMIN : Z := 8.
Definition OPER : Z := 32.

(** [bot.channels[channel].has_privilege(nick, level)]: the flags of the
    nickname in the channel, 0 when it has none, compared with [level]. *)
Definition has_privilege (privileges : gmap string Z) (nick : string) (level : Z)
    : bool :=
  level <=? default 0 (privileges !! nick).

(** A line seen by the bot: the trigger, the [intent] tag when there is
    one, and the plain text. *)
Record seen_line : Type := {
  line_trigger : Trigger;
  intent : option string;
  plain : string
}.

(** The text [capture_message_in_buffer] stores for a line; [bot_channels]
    maps every joined channel to the privileges of its nicknames. *)
Definition formatted_line (bot_channels : gmap string (gmap string Z))
    (line : seen_line) : string :=
  let trigger := line_trigger line in
  let channel := get_channel_from_sender trigger in
  let modifier :=
    match bot_channels !! channel with
    | Some privileges =>
        if has_privilege privileges (nick trigger) ADMIN
           || has_privilege privileges (nick trigger) OP
           || has_privilege privileges (nick trigger) OPER
        then "@"
        else if has_privilege privileges (nick trigger) VOICE then "+"
        else " "
    | None => " "
    end in
  let message :=
    match intent line with
    | Some intent =>
        if String.eqb intent "ACTION"
        then "* " +:+ nick trigger +:+ " " +:+ plain line
        else "CTCP query to " +:+ channel +:+ " from " +:+ nick trigger
             +:+ ": " +:+ intent
    | None => "<" +:+ modifier +:+ nick trigger +:+ "> " +:+ plain line
    end in
  "[" +:+ strftime_pretty (time trigger) +:+ "] " +:+ message.

Definition capture_message_in_buffer (cap : Z)
    (bot_channels : gmap string (gmap string Z))
    (context_buffer : gmap string (list string)) (line : seen_line)
    : gmap string (list string) :=
  add_message_to_context_buffer cap context_buffer
    (get_channel_from_sender (line_trigger line))
    (formatted_line bot_channels line).

(** The buffer after a sequence of lines, from the empty buffer of
    [setup]. *)
Definition captured (cap : Z) (bot_channels : gmap string (gmap string Z))
    (lines : list seen_line) : gmap string (list string) :=
  foldl (capture_message_in_buffer cap bot_channels) ∅ lines.

(** Every known user has a hostmask that is not empty. *)
Definition hostmasks_known (bot : presence) : Prop :=
  forall user mask, users bot !! user = Some mask -> mask <> "".

(** The reminder [create_reminder] makes for [alice_trigger] and one hour. *)
Definition alice_private_reminder : ContextualReminder :=
  {| set_at := sample_time;
     due_at := {| year := 2024; month := 1; day := 15; hour := 11; minute := 0;
                  second := 0; microsecond := 250000 |};
     nickname := "alice"; channel := "PRIVMSG"; message := "tea";
     pastebin_url := ""; has_context := false; context_lines := [] |}.

Definition sample_line : seen_line :=
  {| line_trigger := channel_trigger; intent := None; plain := "hello" |}.



(** ** Statements about the scheduler *)

(** The reminders of a list that fail the test of the scheduler, in order. *)
Definition kept_back (bot : presence) (now : datetime)
    (l : list ContextualReminder) : list ContextualReminder :=
  List.filter (fun r => negb (due_and_deliverable bot now r)) l.

Definition nothing_to_deliver (bot : presence) (now : datetime)
    (reminders : gmap string (list ContextualReminder)) : Prop :=
  forall c l r, reminders !! c = Some l -> r ∈ l ->
    due_and_deliverable bot now r = false.

(** ** Statements about the loader *)

(** The loader with the call [ContextualReminder(...)] left open: the
    dataclass checks no type, so what the call returns for a record of
    the file, or raises, depends on the record alone; [decode] is any such
    function and [R] the type of what it returns. The loops are those of
    [load_reminders_from_persistence]. *)
Section loader.
Context {R : Type}.
Variable decode : json -> result R.

Definition append_with (reminders : gmap string (list R))
    (channel : string) (reminder : R) : gmap string (list R) :=
  let reminders :=
    match reminders !! channel with
    | None => <[channel := []]> reminders
    | Some _ => reminders
    end in
  <[channel := default [] (reminders !! channel) ++ [reminder]]> reminders.

Definition load_channel_with (channel : string) (value : json)
    (acc : result (gmap string (list R))) : result (gmap string (list R)) :=
  reminders <- acc ;;
  items <- iterate value ;;
  foldl (fun acc data_reminder =>
           reminders <- acc ;;
           reminder <- decode data_reminder ;;
           Ok (append_with reminders channel reminder))
        (Ok reminders) items.

Definition load_channels_with (value : json) : result (gmap string (list R)) :=
  match value with
  | JObj m => map_fold load_channel_with (Ok ∅) m
  | JArr [] | JStr EmptyString => Ok ∅
  | _ => Raise TypeError
  end.

Definition load_with (persistence_file : option file_contents)
    : list log_level * result (gmap string (list R)) :=
  match persistence_file with
  | None => ([LogInfo], Ok ∅)
  | Some file =>
      match json_load file with
      | Raise e => ([LogInfo], Raise e)
      | Ok contents =>
          match contains_reminders contents with
          | Raise e => ([LogInfo], Raise e)
          | Ok false => ([LogInfo; LogWarning], Ok ∅)
          | Ok true =>
              match (value <- subscript contents "reminders" ;;
                     load_channels_with value) with
              | Raise e => ([LogInfo], Raise e)
              | Ok reminders => ([LogInfo; LogInfo], Ok reminders)
              end
          end
      end
  end.

End loader.

(** No channel holds an empty list. *)
Definition no_empty_channel {R} (reminders : gmap string (list R)) : Prop :=
  forall c, reminders !! c <> Some [].

(** ** Statements about the publisher *)

(** [r'] is [r], or [r] had no URL and [r'] is [r] with an answer of the
    paste service to the context of [r]. *)
Definition filled_from (send : nat -> string -> option string)
    (r r' : ContextualReminder) : Prop :=
  r' = r
  \/ (pastebin_url r = ""
      /\ exists n url, send n (joined_context r) = Some url
                       /\ r' = with_pastebin_url url r).

(** The same objects, each one as before or filled. *)
Definition heap_filled_from (send : nat -> string -> option string)
    (heap heap' : gmap nat ContextualReminder) : Prop :=
  forall ref,
    match heap !! ref with
    | Some r => exists r', heap' !! ref = Some r' /\ filled_from send r r'
    | None => heap' !! ref = None
    end.

(** The paste service answers every call with a URL that is not empty. *)
Definition always_answers (send : nat -> string -> option string) : Prop :=
  forall n text, exists url, send n text = Some url /\ url <> "".

(** ** [plugin.reminder_in] *)

(** What can leave [reminder_in]: an exception of the service functions,
    or the [UnboundLocalError] of reading [time_delta] after the handler
    of [ValueError] left it unassigned. *)
Inductive plugin_exn : Type :=
  | ServiceError (e : exn)
  | UnboundLocalError.

(** [persist]: the reminder is appended and the whole store is saved. *)
Definition persist_and_save (write_ok : bool) (utcnow : datetime)
    (persistence_file : option file_contents)
    (reminders : gmap string (list ContextualReminder))
    (channel : string) (reminder : ContextualReminder)
    : gmap string (list ContextualReminder)
      * (option file_contents * list log_level) :=
  let reminders := persist reminders channel reminder in
  (reminders, save_reminders_to_persistence write_ok utcnow persistence_file reminders).

(** [t.strftime("%H:%M:%S")] and [t.strftime("%Y-%m-%d")]. *)
Definition strftime_clock (t : datetime) : string :=
  pad2 (hour t) (String ":" (pad2 (minute t) (String ":" (pad2 (second t) "")))).

Definition strftime_date (t : datetime) : string :=
  pad4 (year t) (String "-" (pad2 (month t) (String "-" (pad2 (day t) "")))).

(** The acknowledgement of [reminder_in]. *)
Definition acknowledgement (time_delta : timedelta) (reminder : ContextualReminder)
    : string :=
  if td_days time_delta =? 0
  then "I will remind you that at " +:+ strftime_clock (due_at reminder)
  else "I will remind you that on " +:+ strftime_date (due_at reminder)
       +:+ " at " +:+ strftime_clock (due_at reminder) +:+ " (UTC)".

Record reminder_in_outcome : Type := {
  bot_calls : list bot_call;
  raised : option plugin_exn;
  reminders_after : gmap string (list ContextualReminder);
  file_after : option file_contents
}.

(** [reminder_in]; [args] is [trigger.group(2)], [None] when the command
    came without arguments. [bot.reply] and [bot.say] address the sender
    of the trigger. Without arguments the function replies and goes on:
    [IN_RE.match(None)] then raises [TypeError]. After a [ValueError] it
    says it did not understand and goes on to read [time_delta]. *)
Definition reminder_in (conf : settings)
    (context_buffer : gmap string (list string))
    (reminders : gmap string (list ContextualReminder))
    (persistence_file : option file_contents)
    (write_ok : bool) (snapshot_now save_now : datetime)
    (trigger : Trigger) (args : option string) : reminder_in_outcome :=
  let failed calls e :=
    {| bot_calls := calls; raised := Some e;
       reminders_after := reminders; file_after := persistence_file |} in
  match args with
  | None =>
      failed [Reply "Please specify when and what you would like to be reminded about"
                (sender trigger) (nick trigger)]
             (ServiceError TypeError)
  | Some args =>
      match parse_reminder_string args with
      | Raise ValueError =>
          failed [Say "Sorry, I didn't understand that" (sender trigger)]
                 UnboundLocalError
      | Raise e => failed [] (ServiceError e)
      | Ok (time_delta, None) =>
          (* never taken: the group [text] takes part in every match *)
          failed [] (ServiceError TypeError)
      | Ok (time_delta, Some message) =>
          let channel := get_channel_from_sender trigger in
          match create_reminder conf context_buffer snapshot_now trigger
                  time_delta channel message with
          | Raise e => failed [] (ServiceError e)
          | Ok reminder =>
              let '(reminders, (file, _)) :=
                persist_and_save write_ok save_now persistence_file reminders
                  channel reminder in
              {| bot_calls := [Reply (acknowledgement time_delta reminder)
                                 (sender trigger) (nick trigger)];
                 raised := None;
                 reminders_after := reminders; file_after := file |}
          end
      end
  end.

(** * Properties *)

(** ** Sanity checks of the embedding *)

Example buffer_abcd :
  foldl (fun b m => add_message_to_context_buffer 3 b "#c" m) ∅ ["a"; "b"; "c"; "d"]
    !! "#c" = Some ["b"; "c"; "d"].
Proof. vm_compute. reflexivity. Qed.

Example parse_2h30m :
  parse_reminder_string "2h 30m extra text"
  = Ok ({| td_days := 0; td_seconds := 9000 |}, Some "extra text").
Proof. vm_compute. reflexivity. Qed.

Example parse_10m5s :
  parse_reminder_string "10m 5s"
  = Ok ({| td_days := 0; td_seconds := 600 |}, Some "5s").
Proof. vm_compute. reflexivity. Qed.

Example parse_tomorrow :
  parse_reminder_string "tomorrow do the thing" = Raise ValueError.
Proof. vm_compute. reflexivity. Qed.

Example ymd2ord_epoch : ymd2ord 1970 1 1 = 719163.
Proof. reflexivity. Qed.

Example ord2ymd_leap : ord2ymd (ymd2ord 2024 2 29) = (2024, 2, 29).
Proof. reflexivity. Qed.

Example ord2ymd_max : ord2ymd MAXORDINAL = (9999, 12, 31).
Proof. reflexivity. Qed.

Example iso_roundtrip_example :
  fromisoformat (isoformat_seconds
    {| year := 2021; month := 3; day := 9; hour := 7; minute := 5;
       second := 59; microsecond := 123456 |})
  = Ok {| year := 2021; month := 3; day := 9; hour := 7; minute := 5;
          second := 59; microsecond := 0 |}.
Proof. vm_compute. reflexivity. Qed.

Example datetime_add_example :
  datetime_add
    {| year := 2023; month := 12; day := 31; hour := 23; minute := 59;
       second := 30; microsecond := 7 |}
    {| td_days := 60; td_seconds := 45 |}
  = Ok {| year := 2024; month := 3; day := 1; hour := 0; minute := 0;
          second := 15; microsecond := 7 |}.
Proof. vm_compute. reflexivity. Qed.


(** ** The context buffer *)

Lemma add_message_lookup cap (buffer : gmap string (list string)) channel message :
  add_message_to_context_buffer cap buffer channel message !! channel
  = Some (let appended := default [] (buffer !! channel) ++ [message] in
          if (cap <? Z.of_nat (length appended)) && (1 <=? Z.of_nat (length appended))
          then tail appended else appended).
Proof.
  unfold add_message_to_context_buffer.
  destruct (buffer !! channel) as [old|] eqn:Hold.
  - rewrite Hold. cbn [default]. apply lookup_insert_eq.
  - rewrite !lookup_insert_eq. reflexivity.
Qed.

Lemma add_message_lookup_ne cap (buffer : gmap string (list string))
    channel other message :
  channel <> other ->
  add_message_to_context_buffer cap buffer channel message !! other
  = buffer !! other.
Proof.
  intros Hne. unfold add_message_to_context_buffer.
  destruct (buffer !! channel) as [old|] eqn:Hold.
  - by rewrite lookup_insert_ne.
  - by rewrite !lookup_insert_ne.
Qed.

Lemma add_message_within_capacity cap buffer channel message :
  0 <= cap ->
  within_capacity cap buffer ->
  within_capacity cap (add_message_to_context_buffer cap buffer channel message).
Proof.
  intros Hcap Hwithin other lines.
  destruct (decide (channel = other)) as [<-|Hne].
  - rewrite add_message_lookup. intros [= <-].
    assert (Hold : Z.of_nat (length (default [] (buffer !! channel))) <= cap).
    { destruct (buffer !! channel) as [old|] eqn:Hold; simpl; [|lia].
      by apply (Hwithin channel). }
    cbv zeta. generalize dependent (default [] (buffer !! channel)).
    intros old Hold.
    destruct (cap <? _) eqn:Hlt; simpl.
    + destruct (1 <=? _) eqn:Hone;
        [|apply Z.leb_gt in Hone; rewrite length_app in Hone; simpl in Hone; lia].
      destruct old as [|x old]; simpl in *; [lia|].
      rewrite length_app. simpl. lia.
    + apply Z.ltb_ge in Hlt. lia.
  - rewrite add_message_lookup_ne by done. apply Hwithin.
Qed.

Lemma add_messages_within_capacity cap events : forall buffer,
  0 <= cap ->
  within_capacity cap buffer ->
  within_capacity cap (add_messages cap buffer events).
Proof.
  induction events as [|event events IH]; intros buffer Hcap Hwithin; [done|].
  unfold add_messages. simpl. apply IH; [done|].
  by apply add_message_within_capacity.
Qed.

(** C8. With a capacity [cap >= 0]: every buffer reached from the empty
    one by appends holds at most [cap] lines; an append to a channel
    whose buffer is full drops the oldest line (the head of the list)
    and keeps the others in order behind it, an append below capacity
    drops nothing, and other channels are untouched; capacity 3 and the
    appends a, b, c, d leave b, c, d. *)
Theorem context_buffer_bounded_fifo (cap : Z) (Hcap : 0 <= cap) :
  (forall events, within_capacity cap (add_messages cap ∅ events))
  /\ (forall buffer channel message,
        within_capacity cap buffer ->
        within_capacity cap
          (add_message_to_context_buffer cap buffer channel message))
  /\ (forall buffer channel message old,
        buffer !! channel = Some old ->
        Z.of_nat (length old) = cap ->
        add_message_to_context_buffer cap buffer channel message !! channel
        = Some (tail (old ++ [message])))
  /\ (forall buffer channel message,
        Z.of_nat (length (default [] (buffer !! channel))) < cap ->
        add_message_to_context_buffer cap buffer channel message !! channel
        = Some (default [] (buffer !! channel) ++ [message]))
  /\ (forall buffer channel other message,
        channel <> other ->
        add_message_to_context_buffer cap buffer channel message !! other
        = buffer !! other)
  /\ add_messages 3 ∅ [("#c", "a"); ("#c", "b"); ("#c", "c"); ("#c", "d")] !! "#c"
     = Some ["b"; "c"; "d"].
Proof.
  repeat apply conj.
  - intros events. apply add_messages_within_capacity; [done|].
    intros channel lines. by rewrite lookup_empty.
  - intros. by apply add_message_within_capacity.
  - intros buffer channel message old Hold Hlen.
    rewrite add_message_lookup, Hold. simpl.
    rewrite length_app. simpl.
    replace (cap <? _) with true by (symmetry; apply Z.ltb_lt; lia).
    replace (1 <=? _) with true by (symmetry; apply Z.leb_le; lia).
    done.
  - intros buffer channel message Hlen.
    rewrite add_message_lookup. cbv zeta.
    rewrite length_app. simpl.
    replace (cap <? _) with false by (symmetry; apply Z.ltb_ge; lia).
    done.
  - intros. by apply add_message_lookup_ne.
  - vm_compute. reflexivity.
Qed.

Lemma context_buffer_bounded_fifo_witness :
  0 <= 3
  /\ add_messages 3 ∅ [("#c", "a"); ("#c", "b"); ("#c", "c"); ("#c", "d")] !! "#c"
     = Some ["b"; "c"; "d"].
Proof.
  split; [lia|].
  apply (context_buffer_bounded_fifo 3). lia.
Defined.

(** ** Conversation identifiers *)

Lemma create_reminder_channel conf buffer utcnow trigger delta chan msg r :
  create_reminder conf buffer utcnow trigger delta chan msg = Ok r ->
  channel r = creation_channel trigger.
Proof.
  unfold create_reminder, creation_channel.
  destruct (datetime_add _ _) as [due|]; simpl; [|done].
  destruct (_ && _).
  - destruct (capture_context_snapshot _ _); simpl; [|done]. by intros [= <-].
  - by intros [= <-].
Qed.

Lemma get_channel_from_sender_private trigger :
  is_nick (sender trigger) = true ->
  get_channel_from_sender trigger = "PRIVMSG-" +:+ hostmask trigger.
Proof. unfold get_channel_from_sender. by intros ->. Qed.

(** The key [persist] files a private reminder under does tell the
    hostmasks apart. *)
Lemma get_channel_from_sender_inj t1 t2 :
  is_nick (sender t1) = true -> is_nick (sender t2) = true ->
  get_channel_from_sender t1 = get_channel_from_sender t2 ->
  hostmask t1 = hostmask t2.
Proof.
  intros H1 H2. rewrite !get_channel_from_sender_private by done.
  simpl. by intros [= Heq].
Qed.

(** [can_deliver_reminder] reads the hostmask back from the ninth character
    of the reminder's [channel] on: with the channel [create_reminder]
    stores, that is the empty string. *)
Lemma can_deliver_private_created bot r :
  channel r = "PRIVMSG" ->
  can_deliver_reminder bot r
  = existsb (fun user => String.eqb "" user.2) (map_to_list (users bot)).
Proof. unfold can_deliver_reminder. by intros ->. Qed.

(** C1 (the code departs from the claim). A reminder created from a private
    conversation stores the constant ["PRIVMSG"] as its channel, whatever
    the hostmask of the sender: the reminders of two senders with distinct
    hostmasks carry the same identifier, although [get_channel_from_sender]
    gives the two senders distinct keys. *)
Theorem private_reminders_share_channel :
  hostmask alice_trigger <> hostmask bob_trigger
  /\ get_channel_from_sender alice_trigger <> get_channel_from_sender bob_trigger
  /\ (exists ra rb,
        create_reminder default_settings ∅ sample_time alice_trigger one_hour
          (get_channel_from_sender alice_trigger) "tea" = Ok ra
        /\ create_reminder default_settings ∅ sample_time bob_trigger one_hour
          (get_channel_from_sender bob_trigger) "tea" = Ok rb
        /\ channel ra = "PRIVMSG" /\ channel rb = "PRIVMSG")
  /\ (forall conf buffer utcnow trigger delta chan msg r,
        is_nick (sender trigger) = true ->
        create_reminder conf buffer utcnow trigger delta chan msg = Ok r ->
        channel r = "PRIVMSG").
Proof.
  repeat apply conj.
  - discriminate.
  - discriminate.
  - eexists _, _. repeat apply conj; vm_compute; reflexivity.
  - intros conf buffer utcnow trigger delta chan msg r Hnick Hr.
    apply create_reminder_channel in Hr. rewrite Hr.
    unfold creation_channel. by rewrite Hnick.
Qed.

(** ** Context snapshots *)

Lemma add_messages_lookup_fresh cap events : forall buffer channel,
  channel ∉ events.*1 ->
  add_messages cap buffer events !! channel = buffer !! channel.
Proof.
  induction events as [|[c m] events IH]; intros buffer channel Hfresh; [done|].
  unfold add_messages. simpl. fold (add_messages cap).
  simpl in Hfresh. apply not_elem_of_cons in Hfresh as [Hne Hfresh].
  unfold add_messages in IH. rewrite IH by done.
  by apply add_message_lookup_ne.
Qed.

(** C4 (the code departs from the claim). A snapshot of a conversation no
    line was ever appended to raises [KeyError]: the subscript in
    [capture_context_snapshot] has no default, where
    [add_message_to_context_buffer] creates the missing list. *)
Theorem capture_context_snapshot_unknown_channel :
  capture_context_snapshot ∅ "#new" = Raise KeyError
  /\ (forall cap events channel_name,
        channel_name ∉ events.*1 ->
        capture_context_snapshot (add_messages cap ∅ events) channel_name
        = Raise KeyError).
Proof.
  split; [done|].
  intros cap events channel_name Hfresh. unfold capture_context_snapshot.
  by rewrite add_messages_lookup_fresh, lookup_empty.
Qed.

(** ** Loading a damaged persistence file *)

(** A document that is an object without the key ["reminders"] gives the
    empty store and one warning. *)
Lemma load_without_reminders_key (m : gmap string json) :
  m !! "reminders" = None ->
  load_reminders_from_persistence (Some (Document (JObj m)))
  = ([LogInfo; LogWarning], Ok ∅).
Proof.
  intros Hm. unfold load_reminders_from_persistence. simpl.
  rewrite bool_decide_eq_false_2; [done|].
  rewrite Hm. by intros [? ?].
Qed.

(** C5 (the code departs from the claim). A file that is not JSON makes
    [json.load] raise, and nothing in [load_reminders_from_persistence]
    catches it: no store is returned and no warning is written. The same
    holds for a JSON document whose ["reminders"] entry is not a mapping
    of lists of records. Only a document without the key at all takes the
    path that warns and returns the empty store; a missing file returns
    the empty store with an informational record. *)
Theorem load_garbled_file_raises :
  (forall text,
     load_reminders_from_persistence (Some (NotJson text))
     = ([LogInfo], Raise JSONDecodeError))
  /\ load_reminders_from_persistence
       (Some (Document (JObj {[ "reminders" := JNum 5 ]})))
     = ([LogInfo], Raise TypeError)
  /\ load_reminders_from_persistence
       (Some (Document (JObj {[ "reminders" :=
          JObj {[ "#rocq" := JArr [JObj ∅] ]} ]})))
     = ([LogInfo], Raise KeyError)
  /\ load_reminders_from_persistence (Some (Document JNull))
     = ([LogInfo], Raise TypeError)
  /\ load_reminders_from_persistence (Some (Document (JObj {[ "version" := JNum 1 ]})))
     = ([LogInfo; LogWarning], Ok ∅)
  /\ load_reminders_from_persistence None = ([LogInfo], Ok ∅).
Proof.
  repeat apply conj; done.
Qed.

(** ** The capture window *)

Lemma capture_window_test conf seconds :
  ge_number seconds (or_0 (context_capture_min_duration conf))
  && le_number seconds (or_0 (context_capture_max_duration conf)) = true
  <-> in_capture_window conf seconds.
Proof.
  unfold in_capture_window.
  destruct (or_0 (context_capture_min_duration conf)) as [lo|],
           (or_0 (context_capture_max_duration conf)) as [hi|]; simpl.
  - rewrite andb_true_iff, !Z.leb_le. lia.
  - rewrite andb_true_r, Z.leb_le. lia.
  - split; [discriminate|done].
  - split; [discriminate|done].
Qed.

(** C6. When the due time is representable: a duration inside the closed
    window [[min, max]] (bounds included), when the context buffer has an
    entry under the key the subscript finds ([snapshot_key]: ["PRIVMSG"],
    or the lower-cased name of the channel), gives a reminder with
    [has_context = true] whose context lines are the header, a separator,
    the buffered lines and the closing separator, hence not empty; a
    duration outside the window gives a reminder with
    [has_context = false] and no context lines. *)
Theorem create_reminder_capture_window conf buffer utcnow trigger delta chan msg due
    (Hdue : datetime_add (time trigger) delta = Ok due) :
  (in_capture_window conf (total_seconds delta) ->
   forall snapshot,
     buffer !! snapshot_key trigger = Some snapshot ->
     exists r,
       create_reminder conf buffer utcnow trigger delta chan msg = Ok r
       /\ has_context r = true
       /\ context_lines r <> []
       /\ (exists header separator closing,
             context_lines r = [header; separator] ++ snapshot ++ [closing]))
  /\ (~ in_capture_window conf (total_seconds delta) ->
      exists r,
        create_reminder conf buffer utcnow trigger delta chan msg = Ok r
        /\ has_context r = false
        /\ context_lines r = []).
Proof.
  unfold create_reminder. rewrite Hdue. simpl. split.
  - intros Hin snapshot Hsnap. apply capture_window_test in Hin. rewrite Hin.
    unfold capture_context_snapshot. rewrite Hsnap. simpl. eexists. repeat apply conj; try reflexivity.
    + discriminate.
    + by eexists _, _, _.
  - intros Hout. rewrite <- capture_window_test in Hout.
    apply not_true_is_false in Hout. rewrite Hout.
    eexists. by repeat apply conj.
Qed.

Lemma create_reminder_capture_window_witness :
  (exists r,
     create_reminder default_settings sample_buffer sample_time channel_trigger
       thirty_days "#rocq" "renew the certificate" = Ok r
     /\ has_context r = true
     /\ context_lines r <> []
     /\ (exists header separator closing,
           context_lines r
           = [header; separator]
             ++ ["[2024-01-15 09:59:58] < alice> hello"] ++ [closing])).
Proof.
  refine (proj1 (create_reminder_capture_window default_settings sample_buffer
            sample_time channel_trigger thirty_days "#rocq"
            "renew the certificate" _ _) _ _ _).
  - vm_compute. reflexivity.
  - vm_compute. discriminate.
  - vm_compute. reflexivity.
Defined.

(** ** Reconciliation of paste URLs *)

Lemma with_own_pastebin_url r : with_pastebin_url (pastebin_url r) r = r.
Proof. by destruct r. Qed.

Lemma reconcile_one_id ref updated (heap : gmap nat ContextualReminder) :
  reconcile_one ref updated heap = heap.
Proof.
  induction updated as [|updated_ref updated IH]; simpl; [done|].
  destruct (heap !! ref) as [reminder|] eqn:Href; [|done].
  destruct (heap !! updated_ref) as [updated_reminder|]; [|done].
  destruct (decide _) as [->|]; [|done].
  rewrite with_own_pastebin_url. by apply insert_id.
Qed.

(** The assignment in [update_reminders_pastebin_url] is guarded by the
    equality of the two reminders, [pastebin_url] included: it can only
    write the value the field already has. *)
Lemma update_reminders_pastebin_url_id heap active updated :
  update_reminders_pastebin_url heap active updated = heap.
Proof.
  unfold update_reminders_pastebin_url. destruct (_ =? _)%nat; [done|].
  apply (map_fold_weak_ind (fun result _ => result = heap)); [done|].
  intros channel refs m result _ ->.
  destruct (updated !! channel) as [upd|]; [|done].
  induction refs as [|ref refs IH]; simpl; [done|].
  by rewrite reconcile_one_id.
Qed.

(** In the plugin the URL reaches the store earlier, through the shared
    objects [create_pastebin_entries] assigns to. *)
Example upload_writes_through_shared_objects :
  let heap : gmap nat ContextualReminder := {[ 0%nat := sample_reminder ]} in
  let upcoming := check_upcoming_reminders heap sample_active sample_now in
  upcoming = sample_active
  /\ create_pastebin_entries (fun _ _ => Some sample_url) heap upcoming
     = ({[ 0%nat := with_pastebin_url sample_url sample_reminder ]}, None).
Proof. split; vm_compute; reflexivity. Qed.

(** C3 (the code departs from the claim). The stored reminder (object 0)
    equals the uploaded reminder (object 1) as it was before the upload,
    yet reconciliation leaves its [pastebin_url] empty: the comparison
    includes [pastebin_url], so it fails for exactly the reminders that
    still lack the URL. On every input the heap comes back unchanged. *)
Theorem reconciliation_copies_nothing :
  (exists uploaded,
     copied_heap !! 1%nat = Some uploaded
     /\ with_pastebin_url "" uploaded = sample_reminder
     /\ pastebin_url uploaded = sample_url)
  /\ copied_heap !! 0%nat = Some sample_reminder
  /\ update_reminders_pastebin_url copied_heap sample_active copied_updated !! 0%nat
     = Some sample_reminder
  /\ pastebin_url sample_reminder = ""
  /\ (forall heap active updated,
        update_reminders_pastebin_url heap active updated = heap).
Proof.
  repeat apply conj.
  - eexists. repeat apply conj; vm_compute; reflexivity.
  - vm_compute. reflexivity.
  - by rewrite update_reminders_pastebin_url_id.
  - reflexivity.
  - apply update_reminders_pastebin_url_id.
Qed.

(** ** The delivery scheduler *)

Lemma remove_first_perm x l : x ∈ l -> x :: remove_first x l ≡ₚ l.
Proof.
  induction l as [|y l IH]; simpl; intros Hin.
  - by apply elem_of_nil in Hin.
  - destruct (decide (y = x)) as [->|Hne]; [done|].
    apply elem_of_cons in Hin as [->|Hin]; [done|].
    rewrite Permutation_swap. by rewrite IH.
Qed.

Lemma remove_first_length x l : x ∈ l -> S (length (remove_first x l)) = length l.
Proof.
  intros Hin. apply remove_first_perm, Permutation_length in Hin. done.
Qed.

Lemma remove_first_not_in x l : x ∉ l -> remove_first x l = l.
Proof.
  induction l as [|y l IH]; simpl; intros Hin; [done|].
  apply not_elem_of_cons in Hin as [Hne Hin].
  destruct (decide (y = x)); [congruence|]. by rewrite IH.
Qed.

Lemma remove_first_app_head x pre post :
  x ∉ pre -> remove_first x (pre ++ x :: post) = pre ++ post.
Proof.
  induction pre as [|y pre IH]; simpl; intros Hin.
  - by destruct (decide (x = x)).
  - apply not_elem_of_cons in Hin as [Hne Hin].
    destruct (decide (y = x)); [congruence|]. by rewrite IH.
Qed.

Lemma elem_of_take_le {A} (x : A) l n m :
  (n <= m)%nat -> x ∈ take n l -> x ∈ take m l.
Proof.
  intros Hle. rewrite !elem_of_take. intros (i & Hi & Hlt).
  exists i. split; [done|lia].
Qed.

(** An element the iterator has passed stays behind the iterator when a
    visited element is removed. *)
Lemma remove_first_keeps_passed x r l : forall i,
  x ∈ take i l -> l !! i = Some r -> x ∈ take (S i) (remove_first r l).
Proof.
  induction l as [|y l IH]; intros i Hx Hr; [done|].
  destruct i as [|i]; simpl in *; [by apply elem_of_nil in Hx|].
  destruct (decide (y = r)) as [->|Hne].
  - apply elem_of_cons in Hx as [->|Hx].
    + apply elem_of_take. exists i. split; [done|lia].
    + apply (elem_of_take_le _ _ i); [lia|done].
  - rewrite firstn_cons. apply elem_of_cons in Hx as [->|Hx]; [left|right].
    by apply IH.
Qed.

Section scheduler.
Variable bot : presence.
Variable reminders_as_at : datetime.

Local Abbreviation dd := (due_and_deliverable bot reminders_as_at).

(** More fuel than the distance to the end of the list changes nothing:
    [check_channel] runs the loop to its end. *)
Lemma channel_loop_fuel fuel : forall extra i l delivered,
  (length l <= i + fuel)%nat ->
  channel_loop (fuel + extra) bot reminders_as_at i l delivered
  = channel_loop fuel bot reminders_as_at i l delivered.
Proof.
  induction fuel as [|fuel IH]; intros extra i l delivered Hlen.
  - simpl. destruct extra as [|extra]; simpl; [done|].
    rewrite lookup_ge_None_2; [done|lia].
  - simpl. destruct (l !! i) as [r|] eqn:Hr; [|done].
    destruct (dd r).
    + apply IH. assert (r ∈ l) by (by eapply list_elem_of_lookup_2).
      pose proof (remove_first_length r l H). lia.
    + apply IH. lia.
Qed.

(** The loop delivers only what passes the test, keeps the reminders as
    a multiset, and never lengthens the delivered list it started from. *)
Lemma channel_loop_spec fuel : forall i l delivered result left,
  channel_loop fuel bot reminders_as_at i l delivered = (result, left) ->
  (exists more, result = delivered ++ more /\ Forall (fun r => dd r = true) more)
  /\ result ++ left ≡ₚ delivered ++ l.
Proof.
  induction fuel as [|fuel IH]; intros i l delivered result left; simpl.
  - intros [= <- <-]. split; [|done]. exists []. by rewrite app_nil_r.
  - destruct (l !! i) as [r|] eqn:Hr.
    2:{ intros [= <- <-]. split; [|done]. exists []. by rewrite app_nil_r. }
    destruct (dd r) eqn:Hdd; intros Hloop; apply IH in Hloop.
    + destruct Hloop as [(more & -> & Hmore) Hperm]. split.
      * exists (r :: more). rewrite <- app_assoc. split; [done|].
        by constructor.
      * rewrite Hperm, <- app_assoc. apply Permutation_app_head. simpl.
        apply remove_first_perm. by eapply list_elem_of_lookup_2.
    + done.
Qed.

(** The iterator walks over a stretch that fails the test without
    touching the list. *)
Lemma channel_loop_skip pre : forall fuel passed rest delivered,
  Forall (fun r => dd r = false) pre ->
  channel_loop (length pre + fuel) bot reminders_as_at (length passed)
    (passed ++ pre ++ rest) delivered
  = channel_loop fuel bot reminders_as_at (length passed + length pre)
      (passed ++ pre ++ rest) delivered.
Proof.
  induction pre as [|x pre IH]; intros fuel passed rest delivered Hpre.
  - simpl. by rewrite Nat.add_0_r.
  - apply Forall_cons in Hpre as [Hx Hpre]. simpl.
    rewrite lookup_app_r by lia. rewrite Nat.sub_diag. simpl. rewrite Hx.
    specialize (IH fuel (passed ++ [x]) rest delivered Hpre).
    rewrite length_app in IH. simpl in IH.
    rewrite <- !app_assoc in IH. simpl in IH.
    replace (S (length passed)) with (length passed + 1)%nat by lia.
    rewrite IH. f_equal. lia.
Qed.

(** A reminder the iterator has passed is still in the list when the
    loop ends. *)
Lemma channel_loop_keeps_passed fuel : forall i l delivered x,
  x ∈ take i l ->
  x ∈ (channel_loop fuel bot reminders_as_at i l delivered).2.
Proof.
  induction fuel as [|fuel IH]; intros i l delivered x Hx; simpl.
  - by eapply elem_of_take_le, elem_of_take in Hx as (? & ? & ?);
      [eapply list_elem_of_lookup_2|].
  - destruct (l !! i) as [r|] eqn:Hr.
    2:{ simpl. apply elem_of_take in Hx as (j & Hj & _).
        by eapply list_elem_of_lookup_2. }
    destruct (dd r).
    + apply IH. by apply remove_first_keeps_passed.
    + apply IH. apply (elem_of_take_le _ _ i); [lia|done].
Qed.

End scheduler.

Lemma due_and_deliverable_not_in bot now a pre :
  Forall (fun r => due_and_deliverable bot now r = false) pre ->
  due_and_deliverable bot now a = true -> a ∉ pre.
Proof.
  intros Hpre Ha Hin. rewrite Forall_forall in Hpre.
  apply Hpre in Hin. congruence.
Qed.

Lemma check_channel_first_due bot now pre a post :
  Forall (fun r => due_and_deliverable bot now r = false) pre ->
  due_and_deliverable bot now a = true ->
  check_channel bot now (pre ++ a :: post)
  = channel_loop (length post) bot now (S (length pre)) (pre ++ post) [a].
Proof.
  intros Hpre Ha. unfold check_channel.
  rewrite length_app. simpl.
  pose proof (channel_loop_skip bot now pre (S (length post)) [] (a :: post) [] Hpre)
    as Hskip.
  simpl in Hskip. rewrite Hskip. simpl.
  rewrite lookup_app_r by lia. rewrite Nat.sub_diag. simpl. rewrite Ha.
  rewrite remove_first_app_head by (by eapply due_and_deliverable_not_in).
  done.
Qed.

(** C10, as amended. When no reminder before the pair passes the test and
    the first of the pair does, one pass of the loop delivers the first
    and resumes at the index after the second, which it never examines:
    the second is still in the list when the pass ends, also when it is
    itself due and deliverable. *)
Theorem check_channel_skips_successor bot now pre a b post
    (Hpre : Forall (fun r => due_and_deliverable bot now r = false) pre)
    (Ha : due_and_deliverable bot now a = true) :
  check_channel bot now (pre ++ a :: b :: post)
  = channel_loop (S (length post)) bot now (S (length pre)) (pre ++ b :: post) [a]
  /\ (pre ++ b :: post) !! length pre = Some b
  /\ (exists more, (check_channel bot now (pre ++ a :: b :: post)).1 = a :: more)
  /\ b ∈ (check_channel bot now (pre ++ a :: b :: post)).2.
Proof.
  rewrite check_channel_first_due by done.
  change (length (b :: post)) with (S (length post)).
  repeat apply conj.
  - done.
  - rewrite lookup_app_r by lia. by rewrite Nat.sub_diag.
  - destruct (channel_loop _ _ _ _ _ _) as [result left] eqn:Hloop.
    apply channel_loop_spec in Hloop as [(more & -> & _) _]. by exists more.
  - apply channel_loop_keeps_passed.
    rewrite take_app_ge by lia.
    replace (S (length pre) - length pre)%nat with 1%nat by lia.
    simpl. apply elem_of_app. right. by left.
Qed.

Lemma check_channel_skips_successor_witness :
  due_and_deliverable sample_bot sample_late (channel_reminder "one") = true
  /\ channel_reminder "two"
     ∈ (check_channel sample_bot sample_late
          [channel_reminder "one"; channel_reminder "two"]).2.
Proof.
  split; [vm_compute; reflexivity|].
  apply (check_channel_skips_successor sample_bot sample_late []
           (channel_reminder "one") (channel_reminder "two") []).
  - constructor.
  - vm_compute. reflexivity.
Defined.

(** C10 as stated fails: of three reminders that are all due and
    deliverable the pass delivers the first and the third; for the
    consecutive pair made of the second and the third it is the second of
    the pair that is delivered, and the first that stays. *)
Lemma consecutive_pair_second_delivered :
  let one := channel_reminder "one" in
  let two := channel_reminder "two" in
  let three := channel_reminder "three" in
  due_and_deliverable sample_bot sample_late two = true
  /\ due_and_deliverable sample_bot sample_late three = true
  /\ check_channel sample_bot sample_late [one; two; three]
     = ([one; three], [two])
  /\ ~ (forall bot now pre x y post,
          due_and_deliverable bot now x = true ->
          due_and_deliverable bot now y = true ->
          x ∈ (check_channel bot now (pre ++ x :: y :: post)).1
          /\ y ∈ (check_channel bot now (pre ++ x :: y :: post)).2).
Proof.
  cbv zeta. repeat apply conj.
  - vm_compute. reflexivity.
  - vm_compute. reflexivity.
  - vm_compute. reflexivity.
  - intros Hclaim.
    destruct (Hclaim sample_bot sample_late [channel_reminder "one"]
                (channel_reminder "two") (channel_reminder "three") [])
      as [Htwo _]; [vm_compute; reflexivity ..|].
    vm_compute in Htwo.
    apply elem_of_cons in Htwo as [Heq|Htwo]; [discriminate|].
    apply elem_of_cons in Htwo as [Heq|Htwo]; [discriminate|].
    by apply elem_of_nil in Htwo.
Qed.

Lemma check_channel_nil bot now : check_channel bot now [] = ([], []).
Proof. reflexivity. Qed.

Lemma check_channel_spec bot now l :
  Forall (fun r => due_and_deliverable bot now r = true) (check_channel bot now l).1
  /\ (check_channel bot now l).1 ++ (check_channel bot now l).2 ≡ₚ l.
Proof.
  unfold check_channel.
  destruct (channel_loop _ _ _ _ _ _) as [result left] eqn:Hloop.
  apply channel_loop_spec in Hloop as [(more & -> & Hmore) Hperm].
  simpl in *. by split.
Qed.

(** A pass over a list that holds a reminder passing the test delivers at
    least one reminder: the first one that passes is always examined. *)
Lemma check_channel_progress bot now l r :
  r ∈ l -> due_and_deliverable bot now r = true ->
  (length (check_channel bot now l).2 < length l)%nat.
Proof.
  intros Hin Hr.
  assert (exists pre a post, l = pre ++ a :: post
            /\ Forall (fun x => due_and_deliverable bot now x = false) pre
            /\ due_and_deliverable bot now a = true) as (pre & a & post & -> & Hpre & Ha).
  { clear -Hin Hr. induction l as [|y l IH]; [by apply elem_of_nil in Hin|].
    destruct (due_and_deliverable bot now y) eqn:Hy.
    - by exists [], y, l.
    - apply elem_of_cons in Hin as [->|Hin]; [congruence|].
      destruct (IH Hin) as (pre & a & post & -> & Hpre & Ha).
      exists (y :: pre), a, post.
      split; [done|]. split; [by constructor|done]. }
  rewrite check_channel_first_due by done.
  destruct (channel_loop _ _ _ _ _ _) as [result left] eqn:Hloop.
  apply channel_loop_spec in Hloop as [(more & -> & _) Hperm].
  apply Permutation_length in Hperm. rewrite !length_app in *. simpl in *. lia.
Qed.

Lemma check_channel_shrinks bot now l :
  (length (check_channel bot now l).2 <= length l)%nat.
Proof.
  destruct (check_channel_spec bot now l) as [_ Hperm].
  apply Permutation_length in Hperm. rewrite length_app in Hperm. lia.
Qed.

(** What one run does to the list of one channel. *)
Lemma check_ctx_reminder_jobs_channel bot now reminders c :
  let outcome := check_ctx_reminder_jobs bot now reminders in
  (negb (connected bot) || (size (channels bot) =? 0)%nat = true
   /\ channel_list (delivered_by_channel outcome) c = []
   /\ channel_list (active_reminders outcome) c = channel_list reminders c)
  \/ (negb (connected bot) || (size (channels bot) =? 0)%nat = false
      /\ channel_list (delivered_by_channel outcome) c
         = (check_channel bot now (channel_list reminders c)).1
      /\ channel_list (active_reminders outcome) c
         = (check_channel bot now (channel_list reminders c)).2).
Proof.
  unfold check_ctx_reminder_jobs, channel_list.
  destruct (negb (connected bot) || _) eqn:Hskip; simpl; [left|right].
  - by rewrite lookup_empty.
  - rewrite !lookup_fmap. by destruct (reminders !! c).
Qed.

Lemma channel_list_union delivered later c :
  channel_list
    (union_with (fun earlier later => Some (earlier ++ later)) delivered later) c
  = channel_list delivered c ++ channel_list later c.
Proof.
  unfold channel_list. rewrite lookup_union_with.
  destruct (delivered !! c), (later !! c); simpl; try done.
  by rewrite app_nil_r.
Qed.

Lemma run_jobs_perm runs : forall reminders delivered c,
  channel_list (run_jobs runs reminders delivered).1 c
    ++ channel_list (run_jobs runs reminders delivered).2 c
  ≡ₚ channel_list delivered c ++ channel_list reminders c.
Proof.
  induction runs as [|[bot now] runs IH]; intros reminders delivered c; [done|].
  simpl. rewrite IH, channel_list_union, <- app_assoc.
  apply Permutation_app_head.
  destruct (check_ctx_reminder_jobs_channel bot now reminders c)
    as [(_ & -> & ->)|(_ & -> & ->)]; [done|].
  apply check_channel_spec.
Qed.

Lemma run_jobs_gone runs r c : forall reminders delivered,
  Forall (run_reaches r) runs ->
  r ∉ channel_list reminders c
  \/ (length (channel_list reminders c) <= length runs)%nat ->
  r ∉ channel_list (run_jobs runs reminders delivered).2 c.
Proof.
  induction runs as [|[bot now] runs IH]; intros reminders delivered Hruns Hcase.
  - simpl. destruct Hcase as [Hnot|Hlen]; [done|].
    simpl in Hlen. destruct (channel_list reminders c); [|simpl in Hlen; lia].
    apply not_elem_of_nil.
  - apply Forall_cons in Hruns as [(Hconn & Hsize & Hr) Hruns]. simpl in *.
    apply IH; [done|].
    destruct (check_ctx_reminder_jobs_channel bot now reminders c)
      as [(Hskip & _)|(_ & _ & ->)].
    { rewrite Hconn in Hskip. simpl in Hskip.
      apply Nat.eqb_eq in Hskip. done. }
    destruct (decide (r ∈ channel_list reminders c)) as [Hin|Hnot].
    + right. pose proof (check_channel_progress bot now _ r Hin Hr).
      destruct Hcase as [?|?]; [done|lia].
    + left. intros Hin. apply Hnot.
      destruct (check_channel_spec bot now (channel_list reminders c)) as [_ Hperm].
      rewrite <- Hperm. apply elem_of_app. by right.
Qed.

(** C9. A run delivers only reminders whose [due_at] is strictly before
    the clock of the run and that [can_deliver_reminder] accepts; what a
    run delivers it removes in the same run (deliveries and remaining
    list together are the former list, as multisets), so over any number
    of runs a stored reminder is delivered at most once; and a stored
    reminder that is due and deliverable at every run is delivered, and
    gone from the store, after as many runs as its channel holds
    reminders. *)
Theorem scheduler_delivers_due_once :
  (forall bot now reminders c r,
     r ∈ channel_list (delivered_by_channel
                         (check_ctx_reminder_jobs bot now reminders)) c ->
     datetime_lt (due_at r) now = true /\ can_deliver_reminder bot r = true)
  /\ (forall bot now reminders c,
        channel_list (delivered_by_channel
                        (check_ctx_reminder_jobs bot now reminders)) c
          ++ channel_list (active_reminders
                             (check_ctx_reminder_jobs bot now reminders)) c
        ≡ₚ channel_list reminders c)
  /\ (forall runs reminders c,
        channel_list (run_jobs runs reminders ∅).1 c
          ++ channel_list (run_jobs runs reminders ∅).2 c
        ≡ₚ channel_list reminders c)
  /\ (forall runs reminders c r,
        r ∈ channel_list reminders c ->
        Forall (run_reaches r) runs ->
        (length (channel_list reminders c) <= length runs)%nat ->
        r ∈ channel_list (run_jobs runs reminders ∅).1 c
        /\ r ∉ channel_list (run_jobs runs reminders ∅).2 c).
Proof.
  repeat apply conj.
  - intros bot now reminders c r.
    destruct (check_ctx_reminder_jobs_channel bot now reminders c)
      as [(_ & -> & _)|(_ & -> & _)]; [by intros ?%elem_of_nil|].
    intros Hin.
    destruct (check_channel_spec bot now (channel_list reminders c)) as [Hdd _].
    rewrite Forall_forall in Hdd. apply Hdd in Hin.
    by apply andb_true_iff in Hin.
  - intros bot now reminders c.
    destruct (check_ctx_reminder_jobs_channel bot now reminders c)
      as [(_ & -> & ->)|(_ & -> & ->)]; [done|].
    apply check_channel_spec.
  - intros runs reminders c. rewrite run_jobs_perm.
    unfold channel_list at 1. by rewrite lookup_empty.
  - intros runs reminders c r Hin Hruns Hlen.
    assert (Hgone : r ∉ channel_list (run_jobs runs reminders ∅).2 c).
    { apply run_jobs_gone; [done|by right]. }
    split; [|done].
    pose proof (run_jobs_perm runs reminders ∅ c) as Hperm.
    unfold channel_list at 3 in Hperm. rewrite lookup_empty in Hperm.
    simpl in Hperm. rewrite <- Hperm in Hin.
    apply elem_of_app in Hin as [Hin|Hin]; done.
Qed.

(** ** Persistence round trip *)

Lemma digit_value_digit_char d :
  0 <= d <= 9 -> digit_value (digit_char d) = Some d.
Proof.
  intros Hd.
  assert (d = 0 \/ d = 1 \/ d = 2 \/ d = 3 \/ d = 4 \/ d = 5 \/ d = 6
          \/ d = 7 \/ d = 8 \/ d = 9) as Hcases by lia.
  repeat (destruct Hcases as [->|Hcases]; [reflexivity|]). by subst.
Qed.

Lemma digits2_pad n :
  0 <= n < 100 ->
  digits2 (digit_char (n / 10)) (digit_char (n mod 10)) = Some n.
Proof.
  intros Hn. unfold digits2.
  pose proof (Z.div_mod n 10). pose proof (Z.mod_pos_bound n 10).
  rewrite !digit_value_digit_char by lia.
  f_equal. lia.
Qed.

Lemma digits4_pad n :
  0 <= n < 10000 ->
  digits4 (digit_char (n / 100 / 10)) (digit_char ((n / 100) mod 10))
          (digit_char (n mod 100 / 10)) (digit_char ((n mod 100) mod 10))
  = Some n.
Proof.
  intros Hn. unfold digits4.
  pose proof (Z.div_mod n 100). pose proof (Z.mod_pos_bound n 100).
  rewrite !digits2_pad by lia.
  f_equal. lia.
Qed.

Lemma days_in_month_le y m : days_in_month y m <= 31.
Proof.
  unfold days_in_month.
  repeat match goal with |- context [if ?b then _ else _] => destruct b end; lia.
Qed.

Lemma valid_whole_seconds t :
  valid_datetime t = true -> valid_datetime (whole_seconds t) = true.
Proof.
  unfold valid_datetime. simpl. rewrite !andb_true_iff. intuition.
Qed.

(** Reading back what [isoformat(timespec="seconds")] printed gives the
    timestamp without its microseconds. *)
Lemma fromisoformat_isoformat_seconds t :
  valid_datetime t = true ->
  fromisoformat (isoformat_seconds t) = Ok (whole_seconds t).
Proof.
  intros Hvalid. pose proof (valid_whole_seconds t Hvalid) as Hwhole.
  unfold valid_datetime in Hvalid. rewrite !andb_true_iff in Hvalid.
  rewrite !Z.leb_le in Hvalid.
  destruct Hvalid as [[[[[[[[[[[[[? ?] ?] ?] ?] Hday] ?] ?] ?] ?] ?] ?] ?] ?].
  pose proof (days_in_month_le (year t) (month t)).
  unfold fromisoformat, isoformat_seconds, pad4, pad2, parse_hh_mm_ss_ff.
  rewrite digits4_pad by lia.
  rewrite !digits2_pad by lia.
  fold (whole_seconds t). by rewrite Hwhole.
Qed.

Lemma as_str_list_strings l : as_str_list (JStr <$> l) = Ok l.
Proof. induction l as [|s l IH]; csimpl; [done|]. by rewrite IH. Qed.

Lemma decode_serialize r :
  valid_datetime (set_at r) = true -> valid_datetime (due_at r) = true ->
  decode_reminder (serialize r) = Ok (reloaded_reminder r).
Proof.
  intros Hset Hdue. unfold decode_reminder, serialize, subscript.
  rewrite !list_to_map_cons.
  repeat (rewrite lookup_insert_eq || rewrite lookup_insert_ne by discriminate).
  cbn [bind as_str as_bool as_lines].
  rewrite !fromisoformat_isoformat_seconds by done.
  cbn [bind]. rewrite as_str_list_strings. reflexivity.
Qed.

Lemma append_to_channel_insert (reminders : gmap string (list ContextualReminder))
    c r :
  append_to_channel reminders c r
  = <[c := default [] (reminders !! c) ++ [r]]> reminders.
Proof.
  unfold append_to_channel. destruct (reminders !! c) as [l|] eqn:Hc.
  - by rewrite Hc.
  - rewrite lookup_insert_eq. simpl. by rewrite insert_insert_eq.
Qed.

Lemma foldl_append_to_channel c l : forall reminders : gmap string (list ContextualReminder),
  foldl (fun m r => append_to_channel m c r) reminders l
  = match l with
    | [] => reminders
    | _ => <[c := default [] (reminders !! c) ++ l]> reminders
    end.
Proof.
  induction l as [|r l IH]; intros reminders; [done|].
  simpl. rewrite IH, append_to_channel_insert.
  destruct l as [|r' l]; [done|].
  rewrite lookup_insert_eq, insert_insert_eq. simpl.
  by rewrite <- app_assoc.
Qed.

Lemma load_items c l : forall reminders,
  Forall (fun r => valid_datetime (set_at r) = true
                   /\ valid_datetime (due_at r) = true) l ->
  foldl (fun acc data_reminder =>
           reminders <- acc ;;
           reminder <- decode_reminder data_reminder ;;
           Ok (append_to_channel reminders c reminder))
        (Ok reminders) (serialize <$> l)
  = Ok (foldl (fun m r => append_to_channel m c r) reminders
          (reloaded_reminder <$> l)).
Proof.
  induction l as [|r l IH]; intros reminders Hvalid; [done|].
  apply Forall_cons in Hvalid as [[Hset Hdue] Hvalid].
  csimpl. rewrite decode_serialize by done. simpl. by apply IH.
Qed.

Lemma load_channel_serialized c l reminders :
  reminders !! c = None ->
  Forall (fun r => valid_datetime (set_at r) = true
                   /\ valid_datetime (due_at r) = true) l ->
  load_channel c (JArr (serialize <$> l)) (Ok reminders)
  = Ok match l with
       | [] => reminders
       | _ => <[c := reloaded_reminder <$> l]> reminders
       end.
Proof.
  intros Hc Hvalid. unfold load_channel. simpl.
  rewrite load_items by done. rewrite foldl_append_to_channel, Hc.
  by destruct l.
Qed.

Lemma load_channels_serialized (reminders : gmap string (list ContextualReminder)) :
  valid_store reminders ->
  load_channels (JObj ((fun l => JArr (serialize <$> l)) <$> reminders))
  = Ok (reloaded reminders).
Proof.
  unfold load_channels. rewrite map_fold_fmap. revert reminders.
  apply (map_fold_weak_ind (fun result m =>
           valid_store m -> result = Ok (reloaded m))).
  - intros _. unfold reloaded. by rewrite omap_empty.
  - intros c l m result Hc IH Hvalid.
    rewrite IH.
    2:{ intros c' l' r Hl' Hr. apply (Hvalid c' l' r); [|done].
        rewrite lookup_insert_ne; [done|]. intros <-. congruence. }
    unfold compose. rewrite load_channel_serialized.
    + unfold reloaded. destruct l as [|r l].
      * by rewrite omap_insert_None by done; rewrite delete_id
          by (by rewrite lookup_omap, Hc).
      * by erewrite omap_insert_Some by done.
    + unfold reloaded. by rewrite lookup_omap, Hc.
    + apply Forall_forall. intros r Hr. apply (Hvalid c l r); [|done].
      by rewrite lookup_insert_eq.
Qed.

(** What comes back from the file: the store with its timestamps cut to
    whole seconds and without its empty channels. *)
Lemma save_then_load_reloaded utcnow persistence_file reminders :
  valid_store reminders ->
  save_then_load utcnow persistence_file reminders
  = ([LogInfo; LogInfo], Ok (reloaded reminders)).
Proof.
  intros Hvalid.
  unfold save_then_load, save_reminders_to_persistence, output_data,
    load_reminders_from_persistence.
  cbn [fst json_load contains_reminders subscript bind].
  rewrite !list_to_map_cons, !lookup_insert_eq.
  rewrite bool_decide_eq_true_2 by (by eexists).
  cbn [bind]. by rewrite load_channels_serialized.
Qed.

Lemma whole_seconds_id t : microsecond t = 0 -> whole_seconds t = t.
Proof. destruct t. simpl. by intros ->. Qed.

Lemma reloaded_reminder_id r :
  microsecond (set_at r) = 0 -> microsecond (due_at r) = 0 ->
  reloaded_reminder r = r.
Proof.
  intros Hset Hdue. destruct r. unfold reloaded_reminder. simpl in *.
  by rewrite !whole_seconds_id.
Qed.

Lemma reloaded_lookup (reminders : gmap string (list ContextualReminder)) c :
  reloaded reminders !! c
  = match reminders !! c with
    | Some (r :: l) => Some (reloaded_reminder <$> r :: l)
    | _ => None
    end.
Proof.
  unfold reloaded. rewrite lookup_omap.
  by destruct (reminders !! c) as [[|r l]|].
Qed.

(** C2, as amended. Saving a store and loading the file gives back every
    channel that holds at least one reminder, with its reminders in order
    and every field equal except that [set_at] and [due_at] have lost their
    microseconds; a channel whose list is empty comes back without a key.
    The time of the save and the file replaced play no part. A store
    whose timestamps are whole seconds and whose channels all hold a
    reminder comes back equal. *)
Theorem persistence_round_trip utcnow persistence_file reminders
    (Hvalid : valid_store reminders) :
  save_then_load utcnow persistence_file reminders
  = ([LogInfo; LogInfo], Ok (reloaded reminders))
  /\ (forall c,
        reloaded reminders !! c
        = match reminders !! c with
          | Some (r :: l) => Some (reloaded_reminder <$> r :: l)
          | _ => None
          end)
  /\ (forall r,
        nickname (reloaded_reminder r) = nickname r
        /\ channel (reloaded_reminder r) = channel r
        /\ message (reloaded_reminder r) = message r
        /\ pastebin_url (reloaded_reminder r) = pastebin_url r
        /\ has_context (reloaded_reminder r) = has_context r
        /\ context_lines (reloaded_reminder r) = context_lines r
        /\ set_at (reloaded_reminder r) = whole_seconds (set_at r)
        /\ due_at (reloaded_reminder r) = whole_seconds (due_at r))
  /\ ((forall c l r, reminders !! c = Some l -> r ∈ l ->
         microsecond (set_at r) = 0 /\ microsecond (due_at r) = 0) ->
      (forall c, reminders !! c <> Some []) ->
      (save_then_load utcnow persistence_file reminders).2 = Ok reminders).
Proof.
  repeat apply conj.
  - by apply save_then_load_reloaded.
  - apply reloaded_lookup.
  - intros r. by repeat apply conj.
  - intros Hwhole Hfull. rewrite save_then_load_reloaded by done. simpl.
    f_equal. apply map_eq. intros c. rewrite reloaded_lookup.
    destruct (reminders !! c) as [[|r l]|] eqn:Hc; [by destruct (Hfull c)| |done].
    f_equal. apply list_eq. intros i. rewrite list_lookup_fmap.
    destruct ((r :: l) !! i) as [x|] eqn:Hx; [|done]. simpl. f_equal.
    apply list_elem_of_lookup_2 in Hx.
    destruct (Hwhole c (r :: l) x Hc Hx). by apply reloaded_reminder_id.
Qed.

Lemma sample_store_valid : valid_store sample_store.
Proof.
  intros c l r Hl Hr. unfold sample_store in Hl.
  apply lookup_singleton_Some in Hl as [_ <-].
  apply list_elem_of_singleton in Hr as ->. by split.
Qed.

Lemma persistence_round_trip_witness :
  save_then_load sample_now None sample_store
  = ([LogInfo; LogInfo], Ok (reloaded sample_store)).
Proof.
  apply (persistence_round_trip sample_now None sample_store sample_store_valid).
Defined.

(** C2 as stated fails: [set_at] and [due_at] of the stored reminder have
    250000 microseconds, which [isoformat(timespec="seconds")] does not
    write, so the store that comes back differs from the one saved; and
    a channel whose list was emptied comes back without its key. *)
Lemma save_then_load_differs :
  valid_store sample_store
  /\ microsecond (set_at sample_reminder) = 250000
  /\ (exists back,
        (save_then_load sample_now None sample_store).2 = Ok back
        /\ back <> sample_store
        /\ back !! "#rocq" = Some [reloaded_reminder sample_reminder]
        /\ microsecond (set_at (reloaded_reminder sample_reminder)) = 0)
  /\ (save_then_load sample_now None emptied_store).2 = Ok ∅
  /\ emptied_store <> ∅.
Proof.
  repeat apply conj.
  - apply sample_store_valid.
  - reflexivity.
  - exists (reloaded sample_store).
    rewrite save_then_load_reloaded by apply sample_store_valid.
    assert (Hback : reloaded sample_store !! "#rocq"
                    = Some [reloaded_reminder sample_reminder]).
    { rewrite reloaded_lookup. unfold sample_store.
      by rewrite lookup_singleton_eq. }
    split; [done|]. split; [|by split].
    intros Heq. rewrite Heq in Hback. unfold sample_store in Hback.
    rewrite lookup_singleton_eq in Hback. discriminate.
  - rewrite save_then_load_reloaded.
    + reflexivity.
    + intros c l r Hl Hr. unfold emptied_store in Hl.
      apply lookup_singleton_Some in Hl as [_ <-]. by apply elem_of_nil in Hr.
  - intros Heq. apply (f_equal (fun m => m !! "#rocq")) in Heq.
    unfold emptied_store in Heq.
    rewrite lookup_singleton_eq, lookup_empty in Heq. discriminate.
Qed.

(** ** Parsing duration expressions *)

Lemma greedy_top {R} (f : nat -> option R) lo : forall extra,
  (forall j, (lo <= j < lo + extra)%nat -> f j = None) ->
  greedy extra lo f = f (lo + extra)%nat.
Proof.
  induction extra as [|extra IH]; intros Hlow; simpl.
  - by destruct (f _).
  - destruct (f (lo + S extra)%nat) eqn:Htop; [done|].
    rewrite IH by (intros j Hj; apply Hlow; lia).
    apply Hlow. lia.
Qed.

Lemma length_append_string s1 s2 :
  String.length (s1 +:+ s2) = (String.length s1 + String.length s2)%nat.
Proof. induction s1 as [|a s1 IH]; simpl; [done|]. by rewrite IH. Qed.

Lemma sdrop_append s1 s2 : sdrop (String.length s1) (s1 +:+ s2) = s2.
Proof. induction s1 as [|a s1 IH]; simpl; [by destruct s2|done]. Qed.

Lemma stake_append s1 s2 : stake (String.length s1) (s1 +:+ s2) = s1.
Proof. induction s1 as [|a s1 IH]; simpl; [by destruct s2|]. by rewrite IH. Qed.

Lemma stake_consumed s1 s2 :
  stake (String.length (s1 +:+ s2) - String.length s2) (s1 +:+ s2) = s1.
Proof.
  rewrite length_append_string.
  replace (_ + _ - _)%nat with (String.length s1) by lia.
  apply stake_append.
Qed.

(** A run of characters of a class, followed by a character outside it. *)
Lemma span_run c s1 s2 :
  all_chars (cls_match c) s1 = true ->
  span c s2 = O ->
  span c (s1 +:+ s2) = String.length s1.
Proof.
  intros Hall Hstop. induction s1 as [|a s1 IH]; simpl in *; [done|].
  apply andb_true_iff in Hall as [-> Hall]. by rewrite IH.
Qed.

(** Inside the run, a shorter cut leaves a character of the class next. *)
Lemma sdrop_inside_run c s1 s2 : forall j,
  all_chars (cls_match c) s1 = true ->
  (j < String.length s1)%nat ->
  exists a rest, sdrop j (s1 +:+ s2) = String a rest /\ cls_match c a = true.
Proof.
  induction s1 as [|a s1 IH]; intros j Hall Hj; simpl in *; [lia|].
  apply andb_true_iff in Hall as [Ha Hall].
  destruct j as [|j]; [by eauto|].
  apply IH; [done|lia].
Qed.

Lemma is_space_not_digit a : is_space a = true -> is_digit a = false.
Proof.
  unfold is_space, is_digit. generalize (nat_of_ascii a). intros n Hn.
  apply andb_false_iff.
  destruct (48 <=? n)%nat eqn:Hlo; [right|by left].
  apply Nat.leb_le in Hlo. apply Nat.leb_gt.
  rewrite !orb_true_iff, !andb_true_iff, !Nat.leb_le, !Nat.eqb_eq in Hn. lia.
Qed.

Lemma digit_not_unit a u : is_digit a = true -> is_digit u = false -> Ascii.eqb a u = false.
Proof.
  intros Ha Hu. destruct (Ascii.eqb a u) eqn:Heq; [|done].
  apply Ascii.eqb_eq in Heq as ->. congruence.
Qed.

(** The leading field on digits followed by something that is no digit:
    the digits are taken whole, and the match goes on exactly when the
    unit comes next. *)
Lemma lead_field_digits {R} i u ds rest caps (k : string -> captures -> option R) :
  is_digits ds -> is_digit u = false -> span Digit rest = O ->
  rmatch (lead_field i u) (ds +:+ rest) caps k
  = match rest with
    | String v rest' =>
        if Ascii.eqb v u then k rest' (<[i := Some ds]> caps) else None
    | EmptyString => None
    end.
Proof.
  intros [Hne Hall] Hu Hrest. unfold lead_field. cbn [rmatch].
  rewrite (span_run Digit ds rest) by done.
  destruct (String.length ds) as [|e] eqn:Hlen; [by destruct ds|].
  rewrite greedy_top.
  - replace (1 + e)%nat with (String.length ds) by lia.
    rewrite sdrop_append, stake_consumed. done.
  - intros j Hj.
    destruct (sdrop_inside_run Digit ds rest j Hall) as (a & tl & Hd & Ha);
      [lia|].
    rewrite Hd. cbn [cls_match] in *. by rewrite (digit_not_unit a u).
Qed.

(** The leading field on a text that does not start with a digit. *)
Lemma lead_field_no_digits {R} i u s caps (k : string -> captures -> option R) :
  span Digit s = O -> rmatch (lead_field i u) s caps k = None.
Proof. intros Hs. unfold lead_field. cbn [rmatch]. by rewrite Hs. Qed.

(** Every text splits into its leading run of a class and the rest. *)
Lemma span_split c s :
  s = stake (span c s) s +:+ sdrop (span c s) s
  /\ all_chars (cls_match c) (stake (span c s) s) = true
  /\ span c (sdrop (span c s) s) = O
  /\ String.length (stake (span c s) s) = span c s.
Proof.
  induction s as [|a s IH]; simpl; [done|].
  destruct (cls_match c a) eqn:Ha; simpl.
  - rewrite Ha. destruct IH as (IH1 & IH2 & IH3 & IH4).
    split.
    { change (String a s = String a (stake (span c s) s +:+ sdrop (span c s) s)).
      by f_equal. }
    split; [done|]. split; [done|]. by rewrite IH4.
  - by rewrite Ha.
Qed.

(** No field ahead: the leading-field pattern fails, whatever follows it. *)
Lemma lead_field_fails {R} i u s caps (k : string -> captures -> option R) :
  is_digit u = false -> field_ahead u s = false ->
  rmatch (lead_field i u) s caps k = None.
Proof.
  intros Hu Hahead. unfold field_ahead in Hahead.
  destruct (span_split Digit s) as (Hs & Hall & Hstop & Hlen).
  destruct (span Digit s) as [|n] eqn:Hspan; [by apply lead_field_no_digits|].
  rewrite Hs, lead_field_digits; [| |done|done].
  - destruct (sdrop (S n) s) as [|v rest]; [done|]. by rewrite Hahead.
  - split; [|done]. intros Hempty. by rewrite Hempty in Hlen.
Qed.

Lemma unit_field_unfold {R} i u s caps (k : string -> captures -> option R) :
  rmatch (unit_field i u) s caps k
  = match match s with
          | String a s' =>
              if is_space a then rmatch (lead_field i u) s' caps k else None
          | EmptyString => None
          end with
    | Some res => Some res
    | None => rmatch (lead_field i u) s caps k
    end.
Proof. reflexivity. Qed.

Lemma is_digits_head ds :
  is_digits ds -> exists a tl, ds = String a tl /\ is_digit a = true.
Proof.
  intros [Hne Hall]. destruct ds as [|a tl]; [done|].
  simpl in Hall. apply andb_true_iff in Hall as [Ha _]. by exists a, tl.
Qed.

(** A field that is there is read, blank and all, and nothing else can
    be read in its place. *)
Lemma unit_field_present {R} i u f rest caps (k : string -> captures -> option R) :
  field_ok (Some f) -> is_digit u = false ->
  rmatch (unit_field i u) (render_field (Some f) u rest) caps k
  = k rest (<[i := Some (digits f)]> caps).
Proof.
  intros [Hds Hblank] Hu. rewrite unit_field_unfold. unfold render_field.
  assert (Hread : rmatch (lead_field i u) (digits f +:+ String u rest) caps k
                  = k rest (<[i := Some (digits f)]> caps)).
  { rewrite lead_field_digits by (done || by simpl; rewrite Hu).
    by rewrite Ascii.eqb_refl. }
  destruct (blank f) as [c|].
  - rewrite Hblank, Hread. destruct (k rest _) eqn:Hk; [done|].
    apply lead_field_no_digits. simpl. by rewrite (is_space_not_digit c).
  - destruct (is_digits_head _ Hds) as (a & tl & Heq & Ha).
    rewrite Heq in *.
    change (String a tl +:+ String u rest)
      with (String a (tl +:+ String u rest)) in *.
    cbv iota. destruct (is_space a) eqn:Hsp.
    + apply is_space_not_digit in Hsp. congruence.
    + exact Hread.
Qed.

(** No field of this unit ahead: the optional-field pattern fails. *)
Lemma unit_field_absent {R} i u s caps (k : string -> captures -> option R) :
  is_digit u = false -> no_field u s ->
  rmatch (unit_field i u) s caps k = None.
Proof.
  intros Hu [Hhere Hafter]. rewrite unit_field_unfold.
  rewrite (lead_field_fails i u s) by done.
  destruct s as [|a s']; [done|].
  destruct (is_space a); [|done].
  by rewrite lead_field_fails by auto.
Qed.

Lemma opt_unfold {R} r s caps (k : string -> captures -> option R) :
  rmatch (Opt r) s caps k
  = match rmatch r s caps k with
    | Some res => Some res
    | None => k s caps
    end.
Proof. reflexivity. Qed.

Lemma seq_unfold {R} r1 r2 s caps (k : string -> captures -> option R) :
  rmatch (Seq r1 r2) s caps k
  = rmatch r1 s caps (fun s' caps' => rmatch r2 s' caps' k).
Proof. reflexivity. Qed.

Lemma alt_unfold {R} r1 r2 s caps (k : string -> captures -> option R) :
  rmatch (Alt r1 r2) s caps k
  = match rmatch r1 s caps k with
    | Some res => Some res
    | None => rmatch r2 s caps k
    end.
Proof. reflexivity. Qed.

Lemma group_unfold {R} i r s caps (k : string -> captures -> option R) :
  rmatch (Group i r) s caps k
  = rmatch r s caps (fun s' caps' =>
      k s' (<[i := Some (stake (String.length s - String.length s') s)]> caps')).
Proof. reflexivity. Qed.

(** An optional field in front of a text on which the rest of the
    pattern succeeds. *)
Lemma opt_unit_field {R} i u f rest caps (k : string -> captures -> option R) res :
  field_ok f -> is_digit u = false ->
  (f = None -> no_field u rest) ->
  k rest (field_caps i f caps) = Some res ->
  rmatch (Opt (unit_field i u)) (render_field f u rest) caps k = Some res.
Proof.
  intros Hok Hu Hnone Hk. rewrite opt_unfold. destruct f as [f|].
  - rewrite unit_field_present by done. cbn [field_caps] in Hk. by rewrite Hk.
  - cbn [render_field field_caps] in *. by rewrite unit_field_absent by auto.
Qed.

Lemma plus_unfold {R} c s caps (k : string -> captures -> option R) :
  rmatch (Plus c) s caps k
  = match span c s with
    | O => None
    | S e => greedy e 1%nat (fun n => k (sdrop n s) caps)
    end.
Proof. reflexivity. Qed.

Lemma star_unfold {R} c s caps (k : string -> captures -> option R) :
  rmatch (Star c) s caps k = greedy (span c s) 0%nat (fun n => k (sdrop n s) caps).
Proof. reflexivity. Qed.

Lemma greedy_first {R} (f : nat -> option R) lo extra res :
  f (lo + extra)%nat = Some res -> greedy extra lo f = Some res.
Proof. intros Hf. destruct extra; simpl; by rewrite Hf. Qed.

Lemma span_le_length c s : (span c s <= String.length s)%nat.
Proof.
  induction s as [|a s IH]; simpl; [done|].
  destruct (cls_match c a); lia.
Qed.

Lemma span_sdrop c s : forall j,
  (j <= span c s)%nat -> span c (sdrop j s) = (span c s - j)%nat.
Proof.
  induction s as [|a s IH]; intros j Hj.
  - by destruct j.
  - destruct j as [|j]; [by rewrite Nat.sub_0_r|]. simpl in *.
    destruct (cls_match c a); [|lia]. simpl. apply IH. lia.
Qed.

Lemma span_mono c1 c2 s :
  (forall a, cls_match c1 a = true -> cls_match c2 a = true) ->
  (span c1 s <= span c2 s)%nat.
Proof.
  intros Hsub. induction s as [|a s IH]; simpl; [done|].
  destruct (cls_match c1 a) eqn:Ha; [|lia].
  rewrite (Hsub a Ha). lia.
Qed.

Lemma sdrop_sdrop s : forall m p, sdrop p (sdrop m s) = sdrop (m + p) s.
Proof.
  induction s as [|a s IH]; intros m p; simpl.
  - by destruct m, p.
  - destruct m as [|m]; [done|]. simpl. apply IH.
Qed.

Lemma length_sdrop s : forall j,
  (j <= String.length s)%nat ->
  String.length (sdrop j s) = (String.length s - j)%nat.
Proof.
  induction s as [|a s IH]; intros j Hj; simpl in *.
  - by destruct j.
  - destruct j as [|j]; [done|]. simpl. apply IH. lia.
Qed.

Lemma non_space_is_dot a :
  cls_match NonSpace a = true -> cls_match Dot a = true.
Proof.
  simpl. intros Ha. destruct (Ascii.eqb a "010") eqn:Heq; [|done].
  apply Ascii.eqb_eq in Heq as ->. done.
Qed.

Lemma span_ends_message after : ends_message after -> span Dot after = O.
Proof. destruct after as [|c after]; [done|]. simpl. by intros ->. Qed.

(** The blanks and the message: [\s+] takes all the blanks, the group
    [text] the message up to the line feed or the end. *)
Lemma tail_pattern ws msg after caps :
  is_blanks ws -> message_ok msg -> ends_message after ->
  rmatch (Seq (Plus Space) (Group 14 (Seq (Plus NonSpace) (Star Dot))))
    (ws +:+ msg +:+ after) caps (fun _ c => Some c)
  = Some (<[14%nat := Some msg]> caps).
Proof.
  intros [Hws Hblanks] Hmsg Hafter.
  destruct msg as [|m0 msg']; [done|]. destruct Hmsg as (Hm0 & Hline).
  set (msg := String m0 msg') in *.
  assert (Hdots : span Dot (msg +:+ after) = String.length msg).
  { apply span_run; [done|by apply span_ends_message]. }
  assert (Hword : (1 <= span NonSpace (msg +:+ after) <= String.length msg)%nat).
  { split.
    - unfold msg. simpl. rewrite Hm0. simpl. lia.
    - rewrite <- Hdots. apply span_mono, non_space_is_dot. }
  rewrite seq_unfold, plus_unfold.
  rewrite (span_run Space ws (msg +:+ after)) by (done || by simpl; rewrite Hm0).
  destruct (String.length ws) as [|e] eqn:Hlen; [by destruct ws|].
  apply greedy_first.
  replace (1 + e)%nat with (String.length ws) by lia.
  rewrite sdrop_append, group_unfold, seq_unfold, plus_unfold.
  destruct (span NonSpace (msg +:+ after)) as [|w] eqn:Hw; [lia|].
  apply greedy_first. rewrite star_unfold. apply greedy_first.
  rewrite sdrop_sdrop, span_sdrop by (rewrite Hdots; lia).
  rewrite Hdots.
  replace (1 + w + (0 + (String.length msg - (1 + w))))%nat
    with (String.length msg) by lia.
  rewrite sdrop_append, stake_consumed. done.
Qed.

Lemma field_ahead_no_digit u s : span Digit s = O -> field_ahead u s = false.
Proof. unfold field_ahead. by intros ->. Qed.

Lemma field_ahead_digits u ds v rest :
  is_digits ds -> is_digit v = false ->
  field_ahead u (ds +:+ String v rest) = Ascii.eqb v u.
Proof.
  intros [Hne Hall] Hv. unfold field_ahead.
  rewrite (span_run Digit ds (String v rest)) by (done || by simpl; rewrite Hv).
  destruct (String.length ds) as [|n] eqn:Hlen; [by destruct ds|].
  by rewrite <- Hlen, sdrop_append.
Qed.

(** A field of another unit stands in the way of a field of unit [u]. *)
Lemma no_field_other_unit u u' f rest :
  Ascii.eqb u' u = false -> is_digit u' = false -> field_ok (Some f) ->
  no_field u (render_field (Some f) u' rest).
Proof.
  intros Hother Hu' [Hds Hblank]. unfold render_field, no_field.
  pose proof (field_ahead_digits u (digits f) u' rest Hds Hu') as Hahead.
  rewrite Hother in Hahead.
  destruct (blank f) as [c|].
  - split; [|done]. apply field_ahead_no_digit. simpl.
    by rewrite (is_space_not_digit c).
  - split; [done|].
    destruct (is_digits_head _ Hds) as (a & tl & Heq & Ha). rewrite Heq.
    change (String a tl +:+ String u' rest)
      with (String a (tl +:+ String u' rest)).
    intros Hsp. apply is_space_not_digit in Hsp. congruence.
Qed.

(** A field of unit [u] cannot be read in front of a later field, present
    or not, when it cannot be read in front of what follows. *)
Lemma no_field_skip u u' f rest :
  Ascii.eqb u' u = false -> is_digit u' = false -> field_ok f ->
  (f = None -> no_field u rest) -> no_field u (render_field f u' rest).
Proof.
  intros Hother Hu' Hok Hrest. destruct f as [f|]; [|by apply Hrest].
  by apply no_field_other_unit.
Qed.

Lemma int_acc_digits ds : forall acc,
  all_chars is_digit ds = true ->
  int_acc acc ds
  = Ok (fold_left (fun acc a => acc * 10 + (Z.of_nat (nat_of_ascii a) - 48))
          (list_ascii_of_string ds) acc).
Proof.
  induction ds as [|a ds IH]; intros acc Hall; simpl in *; [done|].
  apply andb_true_iff in Hall as [Ha Hall].
  unfold digit_value. rewrite Ha. by apply IH.
Qed.

Lemma int_digits ds :
  is_digits ds -> within_limit ds -> int ds = Ok (decimal_value ds).
Proof.
  intros [Hne Hall] Hlimit. destruct ds as [|a ds]; [done|].
  unfold int.
  replace (int_max_str_digits <? _) with false
    by (symmetry; apply Z.ltb_ge, Hlimit).
  by rewrite int_acc_digits.
Qed.

Lemma int_or_0_digits ds :
  is_digits ds -> within_limit ds -> int_or_0 (Some ds) = Ok (decimal_value ds).
Proof.
  intros Hds Hlimit. rewrite <- int_digits by done.
  destruct Hds as [Hne _]. by destruct ds.
Qed.

Lemma decimal_value_nonneg_acc l : forall acc,
  0 <= acc ->
  Forall (fun a => is_digit a = true) l ->
  0 <= fold_left (fun acc a => acc * 10 + (Z.of_nat (nat_of_ascii a) - 48)) l acc.
Proof.
  induction l as [|a l IH]; intros acc Hacc Hall; simpl; [done|].
  apply Forall_cons in Hall as [Ha Hall]. apply IH; [|done].
  unfold is_digit in Ha. apply andb_true_iff in Ha as [Hlo _].
  apply Nat.leb_le in Hlo. lia.
Qed.

Lemma all_chars_Forall p s :
  all_chars p s = true -> Forall (fun a => p a = true) (list_ascii_of_string s).
Proof.
  induction s as [|a s IH]; simpl; intros Hall; [constructor|].
  apply andb_true_iff in Hall as [Ha Hall]. constructor; auto.
Qed.

Lemma decimal_value_nonneg ds : is_digits ds -> 0 <= decimal_value ds.
Proof.
  intros [_ Hall]. apply decimal_value_nonneg_acc; [done|].
  by apply all_chars_Forall.
Qed.

Lemma truthy_stake s rest :
  (String.length rest < String.length s)%nat ->
  truthy (Some (stake (String.length s - String.length rest) s)) = true.
Proof.
  intros Hlen. destruct (String.length s - String.length rest)%nat eqn:Hn; [lia|].
  destruct s; [simpl in Hlen; lia|done].
Qed.

Lemma length_render_field f u rest :
  (String.length rest <= String.length (render_field f u rest))%nat.
Proof.
  destruct f as [[[c|] ds]|]; simpl; rewrite ?length_append_string; simpl; lia.
Qed.

Lemma length_lead ds u rest :
  (String.length rest < String.length (ds +:+ String u rest))%nat.
Proof. rewrite length_append_string. simpl. lia. Qed.

Lemma IN_RE_days d h m s ws msg after :
  well_formed (Days d h m s) ->
  is_blanks ws -> message_ok msg -> ends_message after ->
  unextendable (Days d h m s) (ws +:+ msg +:+ after) ->
  exists whole,
    truthy (Some whole) = true
    /\ IN_RE (render (Days d h m s) (ws +:+ msg +:+ after))
       = Some (<[14%nat := Some msg]> (<[0%nat := Some whole]>
           (field_caps 4 s (field_caps 3 m (field_caps 2 h
              (<[1%nat := Some d]> (replicate 15 None))))))).
Proof.
  intros (Hd & Hh & Hm & Hs) Hws Hmsg Hafter (Hxh & Hxm & Hxs).
  set (rest := ws +:+ msg +:+ after) in *.
  eexists. split; cycle 1.
  - unfold IN_RE, re_match, IN_ARGS_PATTERN, IN_TIME_PATTERN.
    rewrite seq_unfold, alt_unfold.
    unfold days_pattern at 1. rewrite group_unfold, seq_unfold.
    cbn [render].
    rewrite lead_field_digits by done.
    rewrite Ascii.eqb_refl.
    rewrite seq_unfold.
    erewrite opt_unit_field; [reflexivity|done|done| |].
    { intros Eh. apply no_field_skip; [done..|]. intros Em.
      apply no_field_skip; [done..|]. intros Es. by apply Hxh. }
    rewrite seq_unfold.
    erewrite opt_unit_field; [reflexivity|done|done| |].
    { intros Em. apply no_field_skip; [done..|]. intros Es. by apply Hxm. }
    erewrite opt_unit_field; [reflexivity|done|done| |].
    { done. }
    unfold rest at 1. by rewrite tail_pattern.
  - apply truthy_stake. cbn [render].
    eapply Nat.le_lt_trans; [|apply length_lead].
    do 2 (etrans; [|apply length_render_field]). apply length_render_field.
Qed.

(** A tier whose unit is not the one that follows the leading digits
    does not match. *)
Lemma tier_fails {R} g i u r ds v rest caps (k : string -> captures -> option R) :
  is_digits ds -> is_digit u = false -> is_digit v = false ->
  Ascii.eqb v u = false ->
  rmatch (Group g (Seq (lead_field i u) r)) (ds +:+ String v rest) caps k = None.
Proof.
  intros Hds Hu Hv Hother. rewrite group_unfold, seq_unfold.
  rewrite lead_field_digits by (done || by simpl; rewrite Hv).
  by rewrite Hother.
Qed.

Lemma IN_RE_hours h m s ws msg after :
  well_formed (Hours h m s) ->
  is_blanks ws -> message_ok msg -> ends_message after ->
  unextendable (Hours h m s) (ws +:+ msg +:+ after) ->
  exists whole,
    truthy (Some whole) = true
    /\ IN_RE (render (Hours h m s) (ws +:+ msg +:+ after))
       = Some (<[14%nat := Some msg]> (<[5%nat := Some whole]>
           (field_caps 8 s (field_caps 7 m
              (<[6%nat := Some h]> (replicate 15 None)))))).
Proof.
  intros (Hh & Hm & Hs) Hws Hmsg Hafter (Hxm & Hxs).
  set (rest := ws +:+ msg +:+ after) in *.
  eexists. split; cycle 1.
  - unfold IN_RE, re_match, IN_ARGS_PATTERN, IN_TIME_PATTERN.
    rewrite seq_unfold, alt_unfold. cbn [render].
    unfold days_pattern. rewrite tier_fails by done.
    rewrite alt_unfold.
    unfold hours_pattern at 1. rewrite group_unfold, seq_unfold.
    rewrite lead_field_digits by done.
    rewrite Ascii.eqb_refl.
    rewrite seq_unfold.
    erewrite opt_unit_field; [reflexivity|done|done| |].
    { intros Em. apply no_field_skip; [done..|]. intros Es. by apply Hxm. }
    erewrite opt_unit_field; [reflexivity|done|done| |].
    { done. }
    unfold rest at 1. by rewrite tail_pattern.
  - apply truthy_stake. cbn [render].
    eapply Nat.le_lt_trans; [|apply length_lead].
    etrans; [|apply length_render_field]. apply length_render_field.
Qed.

Lemma IN_RE_minutes m s ws msg after :
  well_formed (Minutes m s) ->
  is_blanks ws -> message_ok msg -> ends_message after ->
  unextendable (Minutes m s) (ws +:+ msg +:+ after) ->
  exists whole,
    truthy (Some whole) = true
    /\ IN_RE (render (Minutes m s) (ws +:+ msg +:+ after))
       = Some (<[14%nat := Some msg]> (<[9%nat := Some whole]>
           (field_caps 11 s (<[10%nat := Some m]> (replicate 15 None))))).
Proof.
  intros (Hm & Hs) Hws Hmsg Hafter Hxs.
  set (rest := ws +:+ msg +:+ after) in *.
  eexists. split; cycle 1.
  - unfold IN_RE, re_match, IN_ARGS_PATTERN, IN_TIME_PATTERN.
    rewrite seq_unfold, alt_unfold. cbn [render].
    unfold days_pattern. rewrite tier_fails by done.
    rewrite alt_unfold.
    unfold hours_pattern. rewrite tier_fails by done.
    rewrite alt_unfold.
    unfold minutes_pattern at 1. rewrite group_unfold, seq_unfold.
    rewrite lead_field_digits by done.
    rewrite Ascii.eqb_refl.
    erewrite opt_unit_field; [reflexivity|done|done| |].
    { done. }
    unfold rest at 1. by rewrite tail_pattern.
  - apply truthy_stake. cbn [render].
    eapply Nat.le_lt_trans; [|apply length_lead].
    apply length_render_field.
Qed.

Lemma IN_RE_seconds s ws msg after :
  well_formed (Seconds s) ->
  is_blanks ws -> message_ok msg -> ends_message after ->
  unextendable (Seconds s) (ws +:+ msg +:+ after) ->
  exists whole,
    truthy (Some whole) = true
    /\ IN_RE (render (Seconds s) (ws +:+ msg +:+ after))
       = Some (<[14%nat := Some msg]> (<[12%nat := Some whole]>
           (<[13%nat := Some s]> (replicate 15 None)))).
Proof.
  intros Hs Hws Hmsg Hafter _. simpl in Hs.
  set (rest := ws +:+ msg +:+ after).
  eexists. split; cycle 1.
  - unfold IN_RE, re_match, IN_ARGS_PATTERN, IN_TIME_PATTERN.
    rewrite seq_unfold, alt_unfold. cbn [render].
    unfold days_pattern. rewrite tier_fails by done.
    rewrite alt_unfold.
    unfold hours_pattern. rewrite tier_fails by done.
    rewrite alt_unfold.
    unfold minutes_pattern. rewrite tier_fails by done.
    unfold seconds_pattern. rewrite group_unfold.
    rewrite lead_field_digits by done.
    rewrite Ascii.eqb_refl.
    unfold rest at 1. by rewrite tail_pattern.
  - apply truthy_stake. cbn [render]. apply length_lead.
Qed.

Lemma mk_timedelta_in_range days seconds minutes hours :
  0 <= days * 86400 + hours * 3600 + minutes * 60 + seconds
    < 86400 * 1000000000 ->
  mk_timedelta days seconds minutes hours
  = Ok {| td_days := (days * 86400 + hours * 3600 + minutes * 60 + seconds) / 86400;
          td_seconds :=
            (days * 86400 + hours * 3600 + minutes * 60 + seconds) mod 86400 |}.
Proof.
  intros Hrange. unfold mk_timedelta.
  set (total := days * 86400 + hours * 3600 + minutes * 60 + seconds) in *.
  assert (0 <= total / 86400 <= 999999999) as [Hlo Hhi].
  { split; [apply Z.div_pos; lia|].
    apply Z.lt_succ_r, Z.div_lt_upper_bound; lia. }
  replace (-999999999 <=? total / 86400) with true
    by (symmetry; apply Z.leb_le; lia).
  replace (total / 86400 <=? 999999999) with true
    by (symmetry; apply Z.leb_le; lia).
  done.
Qed.

Lemma field_value_nonneg f : field_ok f -> 0 <= field_value f.
Proof.
  destruct f as [f|]; simpl; [|done]. intros [Hds _].
  by apply decimal_value_nonneg.
Qed.

Lemma int_or_0_of_field f :
  field_ok f -> field_within_limit f ->
  int_or_0 (digits <$> f) = Ok (field_value f).
Proof.
  destruct f as [f|]; [|done]. intros [Hds _] Hlimit.
  by apply int_or_0_digits.
Qed.

Lemma expression_seconds_nonneg e : well_formed e -> 0 <= expression_seconds e.
Proof.
  destruct e as [d h m s|h m s|m s|s]; simpl.
  - intros (Hd%decimal_value_nonneg & Hh%field_value_nonneg
            & Hm%field_value_nonneg & Hs%field_value_nonneg). lia.
  - intros (Hh%decimal_value_nonneg & Hm%field_value_nonneg
            & Hs%field_value_nonneg). lia.
  - intros (Hm%decimal_value_nonneg & Hs%field_value_nonneg). lia.
  - apply decimal_value_nonneg.
Qed.

(** C7, as amended. An input made of one duration expression of a tier
    (days with optional hours, minutes and seconds; hours with optional
    minutes and seconds; minutes with optional seconds; seconds) whose
    magnitudes have at most 4300 digits each, blanks, and a message that
    does not start with a blank and holds no line feed, either ending the
    input or followed by a line feed, the expression being the longest
    one readable (no field it leaves out at its end can be read where the
    blanks and the message start): when the duration is below 1000000000
    days, parsing returns the sum of the fields the expression holds,
    fields left out counting for nothing, and the message. The message
    may start with a digit. *)
Theorem parse_reminder_string_expression e ws msg after
    (Hwf : well_formed e) (Hlimit : within_int_limit e)
    (Hws : is_blanks ws) (Hmsg : message_ok msg)
    (Hafter : ends_message after)
    (Hlongest : unextendable e (ws +:+ msg +:+ after))
    (Hrange : expression_seconds e < 86400 * 1000000000) :
  parse_reminder_string (render e (ws +:+ msg +:+ after))
  = Ok ({| td_days := expression_seconds e / 86400;
           td_seconds := expression_seconds e mod 86400 |}, Some msg)
  /\ total_seconds {| td_days := expression_seconds e / 86400;
                      td_seconds := expression_seconds e mod 86400 |}
     = expression_seconds e.
Proof.
  split.
  2:{ unfold total_seconds. simpl.
      pose proof (Z.div_mod (expression_seconds e) 86400). lia. }
  pose proof (expression_seconds_nonneg e Hwf) as Hnonneg.
  unfold parse_reminder_string.
  destruct e as [d h m s|h m s|m s|s].
  - destruct (IN_RE_days d h m s ws msg after Hwf Hws Hmsg Hafter Hlongest)
      as (whole & Htruthy & ->).
    destruct Hwf as (Hd & Hh & Hm & Hs).
    destruct Hlimit as (Ld & Lh & Lm & Ls).
    pose proof (int_or_0_of_field h Hh Lh) as Eh.
    pose proof (int_or_0_of_field m Hm Lm) as Em.
    pose proof (int_or_0_of_field s Hs Ls) as Es.
    clear Hlongest.
    destruct h as [h|], m as [m|], s as [s|];
      cbn -[int_or_0 mk_timedelta truthy field_value] in *;
      rewrite Htruthy, (int_or_0_digits d Hd Ld), ?Eh, ?Em, ?Es;
      cbn [bind]; rewrite mk_timedelta_in_range by (simpl in *; lia); done.
  - destruct (IN_RE_hours h m s ws msg after Hwf Hws Hmsg Hafter Hlongest)
      as (whole & Htruthy & ->).
    destruct Hwf as (Hh & Hm & Hs).
    destruct Hlimit as (Lh & Lm & Ls).
    pose proof (int_or_0_of_field m Hm Lm) as Em.
    pose proof (int_or_0_of_field s Hs Ls) as Es.
    clear Hlongest.
    destruct m as [m|], s as [s|];
      cbn -[int_or_0 mk_timedelta truthy field_value] in *;
      rewrite Htruthy, (int_or_0_digits h Hh Lh), ?Em, ?Es;
      cbn [bind truthy]; rewrite mk_timedelta_in_range by (simpl in *; lia); done.
  - destruct (IN_RE_minutes m s ws msg after Hwf Hws Hmsg Hafter Hlongest)
      as (whole & Htruthy & ->).
    destruct Hwf as (Hm & Hs).
    destruct Hlimit as (Lm & Ls).
    pose proof (int_or_0_of_field s Hs Ls) as Es.
    clear Hlongest.
    destruct s as [s|];
      cbn -[int_or_0 mk_timedelta truthy field_value] in *;
      rewrite Htruthy, (int_or_0_digits m Hm Lm), ?Es;
      cbn [bind truthy]; rewrite mk_timedelta_in_range by (simpl in *; lia); done.
  - destruct (IN_RE_seconds s ws msg after Hwf Hws Hmsg Hafter Hlongest)
      as (whole & Htruthy & ->).
    simpl in Hwf, Hlimit.
    cbn -[int_or_0 mk_timedelta truthy field_value] in *.
    rewrite (int_or_0_digits s Hwf Hlimit).
    cbn [bind truthy]. rewrite mk_timedelta_in_range by (simpl in *; lia). done.
Qed.

Lemma parse_reminder_string_expression_witness :
  parse_reminder_string "2h 30m extra text"
  = Ok ({| td_days := 0; td_seconds := 9000 |}, Some "extra text")
  /\ parse_reminder_string "1d 5 apples"
     = Ok ({| td_days := 1; td_seconds := 0 |}, Some "5 apples").
Proof.
  split.
  - refine (proj1 (parse_reminder_string_expression two_hours_thirty
                     " " "extra text" "" _ _ _ _ _ _ _)).
    + repeat split; discriminate.
    + vm_compute. repeat split; discriminate.
    + split; [discriminate|reflexivity].
    + repeat split.
    + exact I.
    + vm_compute. repeat split; discriminate.
    + reflexivity.
  - refine (proj1 (parse_reminder_string_expression one_day
                     " " "5 apples" "" _ _ _ _ _ _ _)).
    + repeat split; discriminate.
    + vm_compute. repeat split; discriminate.
    + split; [discriminate|reflexivity].
    + repeat split.
    + exact I.
    + vm_compute. repeat split; discriminate.
    + reflexivity.
Defined.

(** C7 as stated fails. The pattern's [.] stops at a line feed and the
    match need not reach the end of the input, so a message of two lines
    comes back cut to its first line. A duration of 1000000000 days is
    beyond what [timedelta] holds. A magnitude of 4301 digits is beyond
    what [int] reads. And where the text after the tier [10m] starts with
    a field the tier leaves out, that field is read into the duration
    and is no part of the message. *)
Lemma parse_reminder_string_cuts_message :
  well_formed (Seconds "1")
  /\ two_line_message <> ""
  /\ parse_reminder_string (render (Seconds "1") (" " +:+ two_line_message))
     = Ok ({| td_days := 0; td_seconds := 1 |}, Some "a")
  /\ Some "a" <> Some two_line_message
  /\ well_formed (Days "1000000000" None None None)
  /\ parse_reminder_string (render (Days "1000000000" None None None) " x")
     = Raise OverflowError
  /\ well_formed (Seconds (ones 4301))
  /\ parse_reminder_string (render (Seconds (ones 4301)) " x")
     = Raise ValueError
  /\ well_formed ten_minutes
  /\ expression_seconds ten_minutes = 600
  /\ parse_reminder_string (render ten_minutes " 5s remaining")
     = Ok ({| td_days := 0; td_seconds := 605 |}, Some "remaining").
Proof.
  repeat apply conj; try discriminate; vm_compute; reflexivity.
Qed.

(** * Further properties of the code *)

(** ** What a successful parse guarantees *)

Lemma greedy_success {R} (f : nat -> option R) lo : forall extra res,
  greedy extra lo f = Some res ->
  exists n, (lo <= n <= lo + extra)%nat /\ f n = Some res.
Proof.
  induction extra as [|extra IH]; intros res; simpl.
  - destruct (f (lo + 0)%nat) eqn:Hf; [|done]. intros [= <-].
    exists (lo + 0)%nat. split; [lia|done].
  - destruct (f (lo + S extra)%nat) eqn:Hf.
    + intros [= <-]. exists (lo + S extra)%nat. split; [lia|done].
    + intros Hg. destruct (IH res Hg) as (n & Hn & Hfn).
      exists n. split; [lia|done].
Qed.

Lemma plus_success {R} c s caps (k : string -> captures -> option R) res :
  rmatch (Plus c) s caps k = Some res ->
  exists n, (1 <= n <= span c s)%nat /\ k (sdrop n s) caps = Some res.
Proof.
  rewrite plus_unfold. destruct (span c s) as [|e]; [done|].
  intros Hg. apply greedy_success in Hg as (n & Hn & Hk).
  exists n. split; [lia|done].
Qed.

Lemma star_success {R} c s caps (k : string -> captures -> option R) res :
  rmatch (Star c) s caps k = Some res ->
  exists n, (n <= span c s)%nat /\ k (sdrop n s) caps = Some res.
Proof.
  rewrite star_unfold. intros Hg.
  apply greedy_success in Hg as (n & Hn & Hk).
  exists n. split; [lia|done].
Qed.

(** Every match ends in its continuation, with as many groups as it
    started with. *)
Lemma rmatch_success {R} r : forall s caps (k : string -> captures -> option R) res,
  rmatch r s caps k = Some res ->
  exists s' caps', length caps' = length caps /\ k s' caps' = Some res.
Proof.
  induction r as [c|c|c|r IH|r1 IH1 r2 IH2|r1 IH1 r2 IH2|i r IH];
    intros s caps k res Hm.
  - simpl in Hm. destruct s as [|a s]; [done|].
    destruct (cls_match c a); [|done]. by exists s, caps.
  - apply plus_success in Hm as (n & _ & Hk). by exists (sdrop n s), caps.
  - apply star_success in Hm as (n & _ & Hk). by exists (sdrop n s), caps.
  - rewrite opt_unfold in Hm.
    destruct (rmatch r s caps k) eqn:Hr.
    + injection Hm as <-. by apply IH in Hr.
    + by exists s, caps.
  - rewrite seq_unfold in Hm.
    apply IH1 in Hm as (s1 & caps1 & Hlen1 & Hm).
    apply IH2 in Hm as (s2 & caps2 & Hlen2 & Hk).
    exists s2, caps2. split; [congruence|done].
  - rewrite alt_unfold in Hm.
    destruct (rmatch r1 s caps k) eqn:Hr.
    + injection Hm as <-. by apply IH1 in Hr.
    + by apply IH2 in Hm.
  - rewrite group_unfold in Hm.
    apply IH in Hm as (s1 & caps1 & Hlen1 & Hk).
    eexists _, _. split; [|exact Hk].
    by rewrite length_insert.
Qed.

Lemma bind_Ok {A B} (r : result A) (f : A -> result B) b :
  bind r f = Ok b -> exists a, r = Ok a /\ f a = Ok b.
Proof. destruct r as [a|e]; simpl; [|done]. intros Hf. by exists a. Qed.

Lemma stake_in_span c s : forall n,
  (n <= span c s)%nat -> all_chars (cls_match c) (stake n s) = true.
Proof.
  induction s as [|a s IH]; intros n Hn; simpl in *.
  - by destruct n.
  - destruct n as [|n]; [done|]. simpl.
    destruct (cls_match c a); [|lia]. simpl. apply IH. lia.
Qed.

(** The group [text] of a match: at least one character, the first one
    no blank, none a line feed. *)
Lemma IN_RE_text w caps :
  IN_RE w = Some caps ->
  exists text_start n,
    (1 <= span NonSpace text_start)%nat
    /\ (1 <= n <= span Dot text_start)%nat
    /\ group caps 14 = Some (stake n text_start).
Proof.
  unfold IN_RE, re_match, IN_ARGS_PATTERN. rewrite seq_unfold. intros Hm.
  apply rmatch_success in Hm as (s1 & caps1 & Hlen & Hm).
  rewrite length_replicate in Hlen.
  rewrite seq_unfold in Hm. apply plus_success in Hm as (b & _ & Hm).
  rewrite group_unfold, seq_unfold in Hm.
  set (Y := sdrop b s1) in *.
  apply plus_success in Hm as (j & Hj & Hm).
  apply star_success in Hm as (p & Hp & Hm).
  injection Hm as <-.
  assert (Hsub : (span NonSpace Y <= span Dot Y)%nat)
    by apply span_mono, non_space_is_dot.
  rewrite span_sdrop in Hp by lia.
  pose proof (span_le_length Dot Y) as HlenY.
  exists Y, (j + p)%nat. split; [lia|]. split; [lia|].
  unfold group. rewrite list_lookup_insert_eq by lia. simpl.
  f_equal. f_equal. rewrite sdrop_sdrop, length_sdrop by lia. lia.
Qed.

Lemma parse_reminder_string_groups w delta msg :
  parse_reminder_string w = Ok (delta, msg) ->
  exists groups, IN_RE w = Some groups /\ msg = group groups 14.
Proof.
  unfold parse_reminder_string. destruct (IN_RE w) as [groups|]; [|done].
  intros Hparse. apply bind_Ok in Hparse as ([[[days hours] minutes] seconds] & _ & Hparse).
  apply bind_Ok in Hparse as (d & _ & Hparse).
  injection Hparse as _ <-. by exists groups.
Qed.

(** X1. When [parse_reminder_string] returns, the message is a string that is
    not empty, does not start with a blank and holds no line feed. *)
Theorem parse_reminder_string_message w delta msg
    (Hparse : parse_reminder_string w = Ok (delta, msg)) :
  exists c text,
    msg = Some (String c text)
    /\ is_space c = false
    /\ no_line_feed (String c text).
Proof.
  apply parse_reminder_string_groups in Hparse as (groups & Hmatch & ->).
  apply IN_RE_text in Hmatch as (Y & n & Hword & Hn & ->).
  pose proof (stake_in_span Dot Y n (proj2 Hn)) as Hdots.
  destruct n as [|n]; [lia|].
  destruct Y as [|c Y]; [simpl in Hword; lia|].
  exists c, (stake n Y). split; [done|]. split; [|exact Hdots].
  simpl in Hword. destruct (is_space c); [simpl in Hword; lia|done].
Qed.

Lemma parse_reminder_string_message_witness :
  exists c text,
    Some "extra text" = Some (String c text)
    /\ is_space c = false
    /\ no_line_feed (String c text).
Proof.
  apply (parse_reminder_string_message "2h 30m extra text"
           {| td_days := 0; td_seconds := 9000 |} (Some "extra text")).
  vm_compute. reflexivity.
Defined.

Lemma tier_no_digits {R} g i u r s caps (k : string -> captures -> option R) :
  span Digit s = O ->
  rmatch (Group g (Seq (lead_field i u) r)) s caps k = None.
Proof.
  intros Hs. rewrite group_unfold, seq_unfold. by apply lead_field_no_digits.
Qed.

(** X2. Among the strings of code points below 256, the strings of this
    development, an input that does not start with one of the digits
    [0] to [9] is refused with [ValueError]. *)
Theorem parse_reminder_string_needs_digit w (Hw : span Digit w = O) :
  parse_reminder_string w = Raise ValueError.
Proof.
  unfold parse_reminder_string.
  replace (IN_RE w) with (@None captures); [done|].
  unfold IN_RE, re_match, IN_ARGS_PATTERN, IN_TIME_PATTERN.
  rewrite seq_unfold, !alt_unfold.
  unfold days_pattern, hours_pattern, minutes_pattern, seconds_pattern.
  rewrite !tier_no_digits by done.
  rewrite group_unfold. by rewrite lead_field_no_digits.
Qed.

Lemma parse_reminder_string_needs_digit_witness :
  parse_reminder_string "tomorrow do the thing" = Raise ValueError.
Proof. apply parse_reminder_string_needs_digit. reflexivity. Defined.

Lemma int_acc_nonneg s : forall acc v,
  int_acc acc s = Ok v -> 0 <= acc -> 0 <= v.
Proof.
  induction s as [|a s IH]; intros acc v; simpl.
  - by intros [= <-].
  - unfold digit_value. destruct (is_digit a) eqn:Ha; [|done].
    intros Hv Hacc. apply (IH _ _ Hv).
    unfold is_digit in Ha. apply andb_true_iff in Ha as [Hlo _].
    apply Nat.leb_le in Hlo. lia.
Qed.

Lemma int_or_0_nonneg g v : int_or_0 g = Ok v -> 0 <= v.
Proof.
  destruct g as [[|a s]|]; try (by intros [= <-]).
  unfold int_or_0, int. destruct (int_max_str_digits <? _); [done|].
  intros Hv. by apply int_acc_nonneg in Hv.
Qed.

Lemma mk_timedelta_Ok days seconds minutes hours delta :
  mk_timedelta days seconds minutes hours = Ok delta ->
  total_seconds delta = days * 86400 + hours * 3600 + minutes * 60 + seconds
  /\ -999999999 <= td_days delta <= 999999999
  /\ 0 <= td_seconds delta < 86400.
Proof.
  unfold mk_timedelta.
  set (total := days * 86400 + hours * 3600 + minutes * 60 + seconds).
  destruct (_ && _) eqn:Hrange; [|done]. intros [= <-].
  apply andb_true_iff in Hrange as [Hlo Hhi].
  apply Z.leb_le in Hlo, Hhi. unfold total_seconds. simpl.
  pose proof (Z.div_mod total 86400). pose proof (Z.mod_pos_bound total 86400).
  lia.
Qed.

(** X3. When [parse_reminder_string] returns, the duration is a normalised
    [timedelta] that is not negative and has at most 999999999 days. *)
Theorem parse_reminder_string_duration w delta msg
    (Hparse : parse_reminder_string w = Ok (delta, msg)) :
  0 <= total_seconds delta
  /\ 0 <= td_days delta <= 999999999
  /\ 0 <= td_seconds delta < 86400.
Proof.
  unfold parse_reminder_string in Hparse.
  destruct (IN_RE w) as [groups|]; [|done].
  apply bind_Ok in Hparse as ([[[days hours] minutes] seconds] & Hfields & Hparse).
  apply bind_Ok in Hparse as (d & Hdelta & Hparse).
  injection Hparse as -> _.
  assert (0 <= days /\ 0 <= hours /\ 0 <= minutes /\ 0 <= seconds)
    as (Hd & Hh & Hm & Hs).
  { repeat match type of Hfields with
           | (if ?b then _ else _) = _ => destruct b
           end;
    repeat match goal with
           | H : bind _ _ = Ok _ |- _ =>
               apply bind_Ok in H as (? & ?%int_or_0_nonneg & H)
           end;
    injection Hfields as <- <- <- <-; lia. }
  apply mk_timedelta_Ok in Hdelta as (Htotal & Hdays & Hsecs).
  assert (0 <= total_seconds delta) as Hnonneg by lia.
  split; [done|]. split; [|done]. unfold total_seconds in Hnonneg. lia.
Qed.

Lemma parse_reminder_string_duration_witness :
  0 <= total_seconds {| td_days := 0; td_seconds := 9000 |}
  /\ 0 <= 0 <= 999999999
  /\ 0 <= 9000 < 86400.
Proof.
  apply (parse_reminder_string_duration "2h 30m extra text"
           {| td_days := 0; td_seconds := 9000 |} (Some "extra text")).
  vm_compute. reflexivity.
Defined.

(** ** The context buffer holds the most recent lines *)

Lemma most_recent_snoc {A} (n : nat) (l : list A) x :
  most_recent n (l ++ [x])
  = if (n <=? length l)%nat then tail (most_recent n l ++ [x])
    else most_recent n l ++ [x].
Proof.
  unfold most_recent. rewrite length_app. simpl.
  destruct (n <=? length l)%nat eqn:Hn.
  - apply Nat.leb_le in Hn.
    replace (length l + 1 - n)%nat with (S (length l - n)) by lia.
    rewrite <- (drop_app_le l [x]) by lia.
    generalize (length l - n)%nat. intros k.
    generalize (l ++ [x]). clear. intros l. revert k.
    induction l as [|y l IH]; intros [|k]; simpl; done.
  - apply Nat.leb_gt in Hn.
    replace (length l + 1 - n)%nat with 0%nat by lia.
    replace (length l - n)%nat with 0%nat by lia.
    by rewrite !drop_0.
Qed.

Lemma length_most_recent {A} (n : nat) (l : list A) :
  length (most_recent n l) = Nat.min n (length l).
Proof. unfold most_recent. rewrite length_drop. lia. Qed.

Lemma add_messages_snoc cap buffer events event :
  add_messages cap buffer (events ++ [event])
  = add_message_to_context_buffer cap (add_messages cap buffer events)
      event.1 event.2.
Proof. unfold add_messages. by rewrite foldl_app. Qed.

Lemma lines_of_snoc channel events event :
  lines_of channel (events ++ [event])
  = if decide (event.1 = channel) then lines_of channel events ++ [event.2]
    else lines_of channel events.
Proof.
  unfold lines_of. rewrite filter_app, fmap_app.
  rewrite filter_cons, filter_nil.
  destruct (decide (event.1 = channel)); simpl; [done|by rewrite app_nil_r].
Qed.

(** X4. After any sequence of events, starting from the empty buffer, the
    buffer of a channel holds the most recent lines of that channel, as
    many as the capacity allows, oldest first; a channel without events
    has no entry. *)
Theorem context_buffer_most_recent (cap : Z) (Hcap : 0 <= cap) events channel :
  add_messages cap ∅ events !! channel
  = match lines_of channel events with
    | [] => None
    | lines => Some (most_recent (Z.to_nat cap) lines)
    end.
Proof.
  induction events as [|event events IH] using rev_ind; [done|].
  rewrite add_messages_snoc, lines_of_snoc.
  destruct (decide (event.1 = channel)) as [<-|Hne].
  2:{ by rewrite add_message_lookup_ne. }
  rewrite add_message_lookup.
  assert (Hold : default [] (add_messages cap ∅ events !! event.1)
                 = most_recent (Z.to_nat cap) (lines_of event.1 events)).
  { rewrite IH. by destruct (lines_of event.1 events). }
  rewrite Hold. cbv zeta.
  destruct (lines_of event.1 events ++ [event.2]) eqn:Hlines;
    [by destruct (lines_of event.1 events)|].
  rewrite <- Hlines. clear Hlines.
  rewrite most_recent_snoc, length_app, length_most_recent. simpl.
  set (n := length (lines_of event.1 events)).
  f_equal.
  destruct (Z.to_nat cap <=? n)%nat eqn:Hn.
  - apply Nat.leb_le in Hn.
    replace (cap <? _) with true by (symmetry; apply Z.ltb_lt; lia).
    replace (1 <=? _) with true by (symmetry; apply Z.leb_le; lia).
    done.
  - apply Nat.leb_gt in Hn.
    replace (cap <? _) with false by (symmetry; apply Z.ltb_ge; lia).
    done.
Qed.

Lemma context_buffer_most_recent_witness :
  add_messages 2 ∅ [("#c", "a"); ("#d", "x"); ("#c", "b"); ("#c", "c")] !! "#c"
  = Some ["b"; "c"].
Proof. apply (context_buffer_most_recent 2). lia. Defined.

(** ** Keys of conversations *)

Lemma get_channel_from_sender_channel trigger :
  is_nick (sender trigger) = false ->
  get_channel_from_sender trigger = sender trigger.
Proof. unfold get_channel_from_sender. by intros ->. Qed.

Lemma not_nick_no_letter s c rest :
  is_nick s = false -> s = String c rest ->
  c = "#"%char \/ c = "&"%char \/ c = "+"%char \/ c = "!"%char.
Proof.
  intros Hnick ->. simpl in Hnick. apply negb_false_iff in Hnick.
  rewrite !orb_true_iff, !Ascii.eqb_eq in Hnick. tauto.
Qed.

(** X5. The key of a private conversation never is the key of a channel, and
    two private conversations have the same key exactly when the senders
    have the same hostmask. *)
Theorem get_channel_from_sender_keys t1 t2
    (Hprivate : is_nick (sender t1) = true) :
  (is_nick (sender t2) = false ->
   get_channel_from_sender t1 <> get_channel_from_sender t2)
  /\ (is_nick (sender t2) = true ->
      (get_channel_from_sender t1 = get_channel_from_sender t2
       <-> hostmask t1 = hostmask t2)).
Proof.
  split.
  - intros Hchannel.
    rewrite get_channel_from_sender_private, get_channel_from_sender_channel by done.
    intros Heq. destruct (sender t2) as [|c rest] eqn:Hs; [done|].
    destruct (not_nick_no_letter _ c rest Hchannel eq_refl)
      as [-> | [-> | [-> | ->]]]; discriminate.
  - intros Hprivate2. split.
    + by apply get_channel_from_sender_inj.
    + intros Heq. rewrite !get_channel_from_sender_private by done.
      by rewrite Heq.
Qed.

Lemma get_channel_from_sender_keys_witness :
  get_channel_from_sender alice_trigger <> get_channel_from_sender channel_trigger.
Proof.
  by apply (proj1 (get_channel_from_sender_keys alice_trigger channel_trigger
                     eq_refl)).
Defined.

(** No key of the context buffer is the bare word the reminder of a
    private conversation is created under. *)
Lemma get_channel_from_sender_not_PRIVMSG trigger :
  get_channel_from_sender trigger <> "PRIVMSG".
Proof.
  unfold get_channel_from_sender.
  destruct (is_nick (sender trigger)) eqn:Hnick; [discriminate|].
  intros Heq. rewrite Heq in Hnick. discriminate.
Qed.

(** ** Private reminders and delivery *)

Lemma existsb_empty_hostmask bot :
  hostmasks_known bot ->
  existsb (fun user => String.eqb "" user.2) (map_to_list (users bot)) = false.
Proof.
  intros Hknown. apply not_true_is_false. intros Hex.
  apply existsb_exists in Hex as ([user mask] & Hin & Heq).
  apply list_elem_of_In, elem_of_map_to_list in Hin.
  apply String.eqb_eq in Heq. simpl in Heq. by apply (Hknown user mask).
Qed.

(** X6. A reminder that [create_reminder] made from a private conversation is
    never deliverable while every known user has a hostmask, and no run of
    the scheduler delivers it: [can_deliver_reminder] looks for a user
    whose hostmask is the empty rest of the channel ["PRIVMSG"]. *)
Theorem private_reminder_never_delivered
    conf buffer utcnow trigger delta chan msg r bot
    (Hprivate : is_nick (sender trigger) = true)
    (Hcreated : create_reminder conf buffer utcnow trigger delta chan msg = Ok r)
    (Hknown : hostmasks_known bot) :
  can_deliver_reminder bot r = false
  /\ forall now reminders c,
       r ∉ channel_list (delivered_by_channel
                           (check_ctx_reminder_jobs bot now reminders)) c.
Proof.
  assert (Hnot : can_deliver_reminder bot r = false).
  { rewrite can_deliver_private_created.
    - by apply existsb_empty_hostmask.
    - rewrite (create_reminder_channel _ _ _ _ _ _ _ _ Hcreated).
      unfold creation_channel. by rewrite Hprivate. }
  split; [done|]. intros now reminders c.
  destruct (check_ctx_reminder_jobs_channel bot now reminders c)
    as [(_ & -> & _)|(_ & -> & _)]; [apply not_elem_of_nil|].
  intros Hin.
  destruct (check_channel_spec bot now (channel_list reminders c)) as [Hdd _].
  rewrite Forall_forall in Hdd. apply Hdd in Hin.
  apply andb_true_iff in Hin as [_ Hin]. congruence.
Qed.

Lemma sample_bot_hostmasks_known : hostmasks_known sample_bot.
Proof.
  intros user mask Hlookup. unfold sample_bot in Hlookup. simpl in Hlookup.
  apply lookup_insert_Some in Hlookup as [[_ <-]|[_ Hlookup]]; [done|].
  apply lookup_singleton_Some in Hlookup as [_ <-]. done.
Qed.

Lemma private_reminder_never_delivered_witness :
  can_deliver_reminder sample_bot alice_private_reminder = false
  /\ forall now reminders c,
       alice_private_reminder
       ∉ channel_list (delivered_by_channel
                         (check_ctx_reminder_jobs sample_bot now reminders)) c.
Proof.
  apply (private_reminder_never_delivered default_settings ∅ sample_time
           alice_trigger one_hour "PRIVMSG-alice!al@host-a.example" "tea").
  - reflexivity.
  - vm_compute. reflexivity.
  - apply sample_bot_hostmasks_known.
Defined.

(** ** Snapshots of what [capture_message_in_buffer] stored *)

Lemma captured_no_PRIVMSG cap bot_channels lines : forall buffer,
  buffer !! "PRIVMSG" = None ->
  foldl (capture_message_in_buffer cap bot_channels) buffer lines !! "PRIVMSG"
  = None.
Proof.
  induction lines as [|line lines IH]; intros buffer Hnone; [done|].
  simpl. apply IH. unfold capture_message_in_buffer.
  rewrite add_message_lookup_ne; [done|].
  apply get_channel_from_sender_not_PRIVMSG.
Qed.

(** X7. Inside the capture window a reminder cannot be created from a
    private conversation: the lines of the conversation are stored under
    the key with the hostmask, the snapshot is read under ["PRIVMSG"],
    and that key is never in the buffer. *)
Theorem private_reminder_snapshot_raises
    cap bot_channels lines conf utcnow trigger delta chan msg due
    (Hprivate : is_nick (sender trigger) = true)
    (Hdue : datetime_add (time trigger) delta = Ok due)
    (Hwindow : in_capture_window conf (total_seconds delta)) :
  create_reminder conf (captured cap bot_channels lines) utcnow trigger delta
    chan msg
  = Raise KeyError.
Proof.
  unfold create_reminder, snapshot_key. rewrite Hdue, Hprivate. cbn [bind].
  apply capture_window_test in Hwindow. rewrite Hwindow.
  unfold capture_context_snapshot, captured.
  by rewrite captured_no_PRIVMSG.
Qed.

Lemma private_reminder_snapshot_raises_witness :
  create_reminder default_settings
    (captured 20 ∅ [{| line_trigger := alice_trigger; intent := None;
                       plain := "hello" |}])
    sample_time alice_trigger thirty_days "PRIVMSG-alice!al@host-a.example"
    "renew the certificate"
  = Raise KeyError.
Proof.
  apply (private_reminder_snapshot_raises 20 ∅ _ default_settings sample_time
           alice_trigger thirty_days _ _ sample_due).
  - reflexivity.
  - vm_compute. reflexivity.
  - vm_compute. discriminate.
Defined.




Example formatted_line_sample :
  formatted_line ∅ sample_line = "[2024-01-15 10:00:00] < alice> hello"
  /\ formatted_line {[ "#rocq" := {[ "alice" := 4 ]} ]} sample_line
     = "[2024-01-15 10:00:00] <@alice> hello".
Proof. split; vm_compute; reflexivity. Qed.

(** ** What the scheduler leaves alone *)

Lemma remove_first_sublist x l : sublist (remove_first x l) l.
Proof.
  induction l as [|y l IH]; simpl; [done|].
  destruct (decide (y = x)); [by apply sublist_cons|by apply sublist_skip].
Qed.

Lemma kept_back_remove_first bot now x l :
  due_and_deliverable bot now x = true ->
  kept_back bot now (remove_first x l) = kept_back bot now l.
Proof.
  intros Hx. induction l as [|y l IH]; simpl; [done|].
  destruct (decide (y = x)) as [->|Hne]; simpl.
  - by rewrite Hx.
  - by rewrite IH.
Qed.

Lemma channel_loop_keeps fuel bot now : forall i l delivered,
  sublist (channel_loop fuel bot now i l delivered).2 l
  /\ kept_back bot now (channel_loop fuel bot now i l delivered).2
     = kept_back bot now l.
Proof.
  induction fuel as [|fuel IH]; intros i l delivered; simpl; [done|].
  destruct (l !! i) as [r|]; [|done].
  destruct (due_and_deliverable bot now r) eqn:Hr; [|apply IH].
  destruct (IH (S i) (remove_first r l) (delivered ++ [r])) as [Hsub Hkept].
  split.
  - etrans; [exact Hsub|apply remove_first_sublist].
  - by rewrite Hkept, kept_back_remove_first.
Qed.

Lemma elem_of_kept_back bot now r l :
  r ∈ kept_back bot now l <-> r ∈ l /\ due_and_deliverable bot now r = false.
Proof.
  unfold kept_back. rewrite !list_elem_of_In, filter_In, negb_true_iff. done.
Qed.

(** X9. A run never reorders a channel's list and never drops a reminder that
    fails its test: what remains is a sublist of what was there, it
    holds the reminders that are not due or not deliverable exactly as
    before, and every channel keeps its key, also when its list becomes
    empty. *)
Theorem scheduler_keeps_undelivered bot now reminders c :
  sublist (channel_list (active_reminders
                           (check_ctx_reminder_jobs bot now reminders)) c)
          (channel_list reminders c)
  /\ kept_back bot now
       (channel_list (active_reminders
                        (check_ctx_reminder_jobs bot now reminders)) c)
     = kept_back bot now (channel_list reminders c)
  /\ (forall r, r ∈ channel_list reminders c ->
        due_and_deliverable bot now r = false ->
        r ∈ channel_list (active_reminders
                            (check_ctx_reminder_jobs bot now reminders)) c)
  /\ (is_Some (active_reminders (check_ctx_reminder_jobs bot now reminders) !! c)
      <-> is_Some (reminders !! c)).
Proof.
  assert (Hkeys : is_Some (active_reminders
                             (check_ctx_reminder_jobs bot now reminders) !! c)
                  <-> is_Some (reminders !! c)).
  { unfold check_ctx_reminder_jobs. destruct (negb _ || _); simpl; [done|].
    rewrite !lookup_fmap. by rewrite !fmap_is_Some. }
  destruct (check_ctx_reminder_jobs_channel bot now reminders c)
    as [(_ & _ & ->)|(_ & _ & ->)].
  { repeat split; try done; apply Hkeys. }
  unfold check_channel.
  destruct (channel_loop_keeps (length (channel_list reminders c)) bot now 0
              (channel_list reminders c) []) as [Hsub Hkept].
  split; [done|]. split; [done|]. split; [|done].
  intros r Hin Hr.
  assert (r ∈ kept_back bot now (channel_list reminders c)) as Hback
    by (by apply elem_of_kept_back).
  rewrite <- Hkept in Hback. by apply elem_of_kept_back in Hback as [? _].
Qed.

Lemma is_dirty_delivered (delivered : gmap string (list ContextualReminder)) :
  map_fold (fun _ l dirty => dirty || negb (bool_decide (l = []))) false delivered
  = true
  <-> exists c l, delivered !! c = Some l /\ l <> [].
Proof.
  apply (map_fold_weak_ind (fun dirty m =>
           dirty = true <-> exists c l, m !! c = Some l /\ l <> [])).
  - split; [done|]. intros (c & l & Hl & _). by rewrite lookup_empty in Hl.
  - intros c l m dirty Hc IH. rewrite orb_true_iff, IH, negb_true_iff.
    rewrite bool_decide_eq_false. split.
    + intros [(c' & l' & Hl' & Hne)|Hne].
      * exists c', l'. split; [|done]. rewrite lookup_insert_ne; [done|].
        intros <-. congruence.
      * exists c, l. by rewrite lookup_insert_eq.
    + intros (c' & l' & Hl' & Hne).
      destruct (decide (c = c')) as [<-|Hcc].
      * rewrite lookup_insert_eq in Hl'. injection Hl' as <-. by right.
      * rewrite lookup_insert_ne in Hl' by done. left. by exists c', l'.
Qed.

Lemma check_channel_idle bot now l :
  Forall (fun r => due_and_deliverable bot now r = false) l ->
  check_channel bot now l = ([], l).
Proof.
  intros Hidle. unfold check_channel.
  pose proof (channel_loop_skip bot now l 0 [] [] [] Hidle) as Hskip.
  simpl in Hskip. rewrite app_nil_r, Nat.add_0_r in Hskip. by rewrite Hskip.
Qed.

(** X10. The store is marked dirty, and so written to the file, exactly when
    the run delivered something; a run that finds nothing due and
    deliverable returns the store as it was and does not mark it. *)
Theorem scheduler_dirty_iff_delivered bot now reminders :
  (is_dirty (check_ctx_reminder_jobs bot now reminders) = true
   <-> exists c, channel_list (delivered_by_channel
                                 (check_ctx_reminder_jobs bot now reminders)) c
                 <> [])
  /\ (nothing_to_deliver bot now reminders ->
      active_reminders (check_ctx_reminder_jobs bot now reminders) = reminders
      /\ is_dirty (check_ctx_reminder_jobs bot now reminders) = false).
Proof.
  assert (Hdirty : is_dirty (check_ctx_reminder_jobs bot now reminders) = true
    <-> exists c, channel_list (delivered_by_channel
                     (check_ctx_reminder_jobs bot now reminders)) c <> []).
  { unfold check_ctx_reminder_jobs. destruct (negb _ || _); simpl.
    - split; [done|]. intros (c & Hc). unfold channel_list in Hc.
      by rewrite lookup_empty in Hc.
    - rewrite is_dirty_delivered. unfold channel_list. split.
      + intros (c & l & Hl & Hne). exists c. by rewrite Hl.
      + intros (c & Hc). destruct (_ !! c) as [l|] eqn:Hl; [|done].
        by exists c, l. }
  split; [done|]. intros Hidle.
  assert (Hsame : active_reminders (check_ctx_reminder_jobs bot now reminders)
                  = reminders).
  { unfold check_ctx_reminder_jobs. destruct (negb _ || _); simpl; [done|].
    apply map_eq. intros c. rewrite !lookup_fmap.
    destruct (reminders !! c) as [l|] eqn:Hl; [|done]. simpl.
    rewrite check_channel_idle; [done|].
    apply Forall_forall. intros r Hr. by apply (Hidle c l r). }
  split; [done|]. apply not_true_is_false. intros Htrue.
  apply Hdirty in Htrue as (c & Hc).
  destruct (check_ctx_reminder_jobs_channel bot now reminders c)
    as [(_ & Hd & _)|(_ & Hd & _)]; [congruence|].
  rewrite Hd in Hc. apply Hc.
  unfold channel_list. destruct (reminders !! c) as [l|] eqn:Hl; [|done].
  simpl. rewrite check_channel_idle; [done|].
  apply Forall_forall. intros r Hr. by apply (Hidle c l r).
Qed.

(** ** What the loader returns *)

(** The loader is the instance of [load_with] at the typed constructor
    call. *)
Lemma load_reminders_from_persistence_with persistence_file :
  load_reminders_from_persistence persistence_file
  = load_with decode_reminder persistence_file.
Proof. reflexivity. Qed.

Lemma append_with_insert {R} (reminders : gmap string (list R)) c r :
  append_with reminders c r
  = <[c := default [] (reminders !! c) ++ [r]]> reminders.
Proof.
  unfold append_with. destruct (reminders !! c) as [l|] eqn:Hc.
  - by rewrite Hc.
  - rewrite lookup_insert_eq. simpl. by rewrite insert_insert_eq.
Qed.

Lemma append_with_no_empty {R} (reminders : gmap string (list R)) c r :
  no_empty_channel reminders -> no_empty_channel (append_with reminders c r).
Proof.
  intros Hfull c'. rewrite append_with_insert.
  destruct (decide (c = c')) as [<-|Hne].
  - rewrite lookup_insert_eq. intros [= Heq]. by destruct (default _ _).
  - rewrite lookup_insert_ne by done. apply Hfull.
Qed.

Lemma foldl_load_raise {R} (decode : json -> result R) c e items :
  foldl (fun acc data_reminder =>
           reminders <- acc ;;
           reminder <- decode data_reminder ;;
           Ok (append_with reminders c reminder))
        (Raise e) items
  = Raise e.
Proof. induction items as [|item items IH]; simpl; [done|exact IH]. Qed.

Lemma load_items_no_empty {R} (decode : json -> result R) c items :
  forall reminders loaded,
  no_empty_channel reminders ->
  foldl (fun acc data_reminder =>
           reminders <- acc ;;
           reminder <- decode data_reminder ;;
           Ok (append_with reminders c reminder))
        (Ok reminders) items
  = Ok loaded ->
  no_empty_channel loaded.
Proof.
  induction items as [|item items IH]; intros reminders loaded Hfull.
  - by intros [= <-].
  - simpl. destruct (decode item) as [r|e]; simpl.
    + apply IH. by apply append_with_no_empty.
    + by rewrite foldl_load_raise.
Qed.

Lemma load_channels_no_empty {R} (decode : json -> result R) value loaded :
  load_channels_with decode value = Ok loaded -> no_empty_channel loaded.
Proof.
  assert (Hempty : no_empty_channel (∅ : gmap string (list R))).
  { intros c. by rewrite lookup_empty. }
  destruct value as [| | | |s|l|m]; simpl; try done.
  - destruct s; [by intros [= <-]|done].
  - destruct l; [by intros [= <-]|done].
  - revert loaded.
    apply (map_fold_weak_ind (fun result _ =>
             forall loaded, result = Ok loaded -> no_empty_channel loaded)).
    + by intros loaded [= <-].
    + intros c v _ result _ IH loaded. unfold load_channel_with.
      intros Hload. apply bind_Ok in Hload as (reminders & -> & Hload).
      apply bind_Ok in Hload as (items & _ & Hload).
      by apply load_items_no_empty in Hload; [|apply IH].
Qed.

(** X11. Whatever the file holds, and whatever the construction of a
    reminder from a record of the file returns or raises, a store that
    the loader returns has no channel with an empty list: a key is
    created only when a reminder is appended under it. *)
Theorem load_returns_sound_store {R} (decode : json -> result R)
    persistence_file logs reminders
    (Hload : load_with decode persistence_file = (logs, Ok reminders)) :
  no_empty_channel reminders.
Proof.
  assert (Hempty : no_empty_channel (∅ : gmap string (list R))).
  { intros c. by rewrite lookup_empty. }
  unfold load_with in Hload.
  destruct persistence_file as [file|]; [|by injection Hload as _ <-].
  destruct (json_load file) as [contents|]; [|done].
  destruct (contains_reminders contents) as [[|]|]; [| |done].
  - destruct (bind _ _) as [loaded|] eqn:Hvalue; [|done].
    injection Hload as _ <-.
    apply bind_Ok in Hvalue as (value & _ & Hvalue).
    by apply load_channels_no_empty in Hvalue.
  - by injection Hload as _ <-.
Qed.

Lemma load_returns_sound_store_witness :
  no_empty_channel (reloaded sample_store).
Proof.
  apply (load_returns_sound_store decode_reminder
           (save_reminders_to_persistence true sample_now None sample_store).1
           [LogInfo; LogInfo]).
  rewrite <- load_reminders_from_persistence_with.
  apply (save_then_load_reloaded sample_now None sample_store sample_store_valid).
Defined.

(** ** What an upload changes *)

Lemma length_zero_empty s : (Z.of_nat (String.length s) =? 0) = true <-> s = "".
Proof.
  rewrite Z.eqb_eq. destruct s; simpl; [done|]. split; [lia|done].
Qed.

Lemma filled_from_trans send r1 r2 r3 :
  filled_from send r1 r2 -> filled_from send r2 r3 -> filled_from send r1 r3.
Proof.
  intros [->|(Hempty & n & url & Hsend & ->)]; [done|].
  intros [->|(Hempty' & n' & url' & Hsend' & ->)].
  - right. split; [done|]. by exists n, url.
  - right. split; [done|]. by exists n', url'.
Qed.

Lemma heap_filled_from_refl send heap : heap_filled_from send heap heap.
Proof.
  intros ref. destruct (heap !! ref) as [r|] eqn:Hr; [|done].
  exists r. split; [done|by left].
Qed.

Lemma heap_filled_from_trans send h1 h2 h3 :
  heap_filled_from send h1 h2 -> heap_filled_from send h2 h3 ->
  heap_filled_from send h1 h3.
Proof.
  intros H12 H23 ref. specialize (H12 ref). specialize (H23 ref).
  destruct (h1 !! ref) as [r1|].
  - destruct H12 as (r2 & Hr2 & Hf12). rewrite Hr2 in H23.
    destruct H23 as (r3 & Hr3 & Hf23). exists r3. split; [done|].
    by eapply filled_from_trans.
  - by rewrite H12 in H23.
Qed.

Lemma heap_filled_from_insert send heap ref r url n :
  heap !! ref = Some r -> pastebin_url r = "" ->
  send n (joined_context r) = Some url ->
  heap_filled_from send heap (<[ref := with_pastebin_url url r]> heap).
Proof.
  intros Hr Hempty Hsend ref'. destruct (decide (ref = ref')) as [<-|Hne].
  - rewrite Hr, lookup_insert_eq. eexists. split; [done|].
    right. split; [done|]. by exists n, url.
  - rewrite lookup_insert_ne by done.
    destruct (heap !! ref') as [r'|]; [|done]. exists r'. split; [done|by left].
Qed.

Lemma upload_channel_filled send refs : forall heap calls,
  heap_filled_from send heap (upload_channel send refs heap calls).1.1.
Proof.
  induction refs as [|ref refs IH]; intros heap calls; simpl.
  - apply heap_filled_from_refl.
  - destruct (heap !! ref) as [r|] eqn:Hr; [|apply IH].
    destruct (Z.of_nat _ =? 0) eqn:Hempty; [|apply IH].
    apply length_zero_empty in Hempty.
    destruct (send calls (joined_context r)) as [url|] eqn:Hsend.
    + eapply heap_filled_from_trans; [|apply IH].
      by eapply heap_filled_from_insert.
    + apply heap_filled_from_refl.
Qed.

Lemma create_pastebin_entries_fold send heap upcoming :
  create_pastebin_entries send heap upcoming
  = let state :=
      map_fold (fun _ refs state =>
                  match state with
                  | (heap, calls, None) => upload_channel send refs heap calls
                  | failed => failed
                  end) (heap, O, None) upcoming in
    (state.1.1, state.2).
Proof.
  unfold create_pastebin_entries. by destruct (map_fold _ _ _) as [[? ?] ?].
Qed.

Lemma create_pastebin_entries_filled send heap upcoming :
  heap_filled_from send heap (create_pastebin_entries send heap upcoming).1.
Proof.
  rewrite create_pastebin_entries_fold. cbv zeta. simpl.
  apply (map_fold_weak_ind (fun state _ =>
           heap_filled_from send heap state.1.1)).
  - apply heap_filled_from_refl.
  - intros c refs _ [[heap' calls] [e|]] _ IH; [done|].
    eapply heap_filled_from_trans; [exact IH|].
    apply upload_channel_filled.
Qed.

(** X12. Whether it ends well or raises, an upload changes nothing but empty
    [pastebin_url] fields: every object is the one it was, or the one it
    was with an answer of the paste service in place of its empty URL; no
    object appears or disappears. *)
Theorem upload_fills_only_empty_urls send heap upcoming :
  heap_filled_from send heap (create_pastebin_entries send heap upcoming).1
  /\ forall ref r r',
       heap !! ref = Some r ->
       (create_pastebin_entries send heap upcoming).1 !! ref = Some r' ->
       r' = with_pastebin_url (pastebin_url r') r
       /\ (pastebin_url r <> "" -> r' = r).
Proof.
  pose proof (create_pastebin_entries_filled send heap upcoming) as Hfilled.
  split; [done|]. intros ref r r' Hr Hr'.
  specialize (Hfilled ref). rewrite Hr in Hfilled.
  destruct Hfilled as (r'' & Hr'' & Hfrom).
  rewrite Hr' in Hr''. injection Hr'' as <-.
  destruct Hfrom as [->|(Hempty & n & url & _ & ->)].
  - split; [by rewrite with_own_pastebin_url|done].
  - split; [done|]. by intros [].
Qed.

Lemma filled_from_keeps_url send r r' :
  filled_from send r r' -> pastebin_url r <> "" -> r' = r.
Proof. intros [->|(Hempty & _)]; [done|]. by intros []. Qed.

Lemma filled_from_answered send r r' :
  always_answers send -> filled_from send r r' ->
  r' = r \/ pastebin_url r' <> "".
Proof.
  intros Hans [->|(_ & n & url & Hsend & ->)]; [by left|right].
  destruct (Hans n (joined_context r)) as (url' & Hsend' & Hne).
  simpl. congruence.
Qed.

Lemma heap_filled_keeps_url send heap heap' ref r :
  heap_filled_from send heap heap' ->
  heap !! ref = Some r -> pastebin_url r <> "" -> heap' !! ref = Some r.
Proof.
  intros Hfilled Hr Hurl. specialize (Hfilled ref). rewrite Hr in Hfilled.
  destruct Hfilled as (r' & Hr' & Hfrom).
  by rewrite (filled_from_keeps_url _ _ _ Hfrom Hurl) in Hr'.
Qed.

Lemma upload_channel_done send refs (Hans : always_answers send) :
  forall heap calls,
    (upload_channel send refs heap calls).2 = None
    /\ forall ref r, ref ∈ refs -> heap !! ref = Some r ->
         exists r', (upload_channel send refs heap calls).1.1 !! ref = Some r'
                    /\ pastebin_url r' <> "".
Proof.
  induction refs as [|ref refs IH]; intros heap calls; simpl.
  { split; [done|]. intros ref r Hin. by apply elem_of_nil in Hin. }
  destruct (heap !! ref) as [r|] eqn:Hr.
  2:{ destruct (IH heap calls) as [Hnone Hurls]. split; [done|].
      intros ref' r' Hin Hr'. apply elem_of_cons in Hin as [->|Hin]; [congruence|].
      by apply (Hurls ref' r'). }
  destruct (Z.of_nat _ =? 0) eqn:Hempty.
  - destruct (Hans calls (joined_context r)) as (url & Hsend & Hne).
    rewrite Hsend.
    set (heap1 := <[ref := with_pastebin_url url r]> heap).
    destruct (IH heap1 (S calls)) as [Hnone Hurls]. split; [done|].
    intros ref' r' Hin Hr'. apply elem_of_cons in Hin as [->|Hin].
    + exists (with_pastebin_url url r). split; [|done].
      apply (heap_filled_keeps_url send heap1); [apply upload_channel_filled| |done].
      unfold heap1. by rewrite lookup_insert_eq.
    + destruct (decide (ref = ref')) as [<-|Hother].
      * apply (Hurls ref (with_pastebin_url url r) Hin).
        unfold heap1. by rewrite lookup_insert_eq.
      * apply (Hurls ref' r' Hin). unfold heap1. by rewrite lookup_insert_ne.
  - destruct (IH heap calls) as [Hnone Hurls]. split; [done|].
    intros ref' r' Hin Hr'. apply elem_of_cons in Hin as [->|Hin].
    + exists r. rewrite Hr in Hr'. injection Hr' as <-.
      assert (Hurl : pastebin_url r <> "").
      { intros Hurl. apply length_zero_empty in Hurl. congruence. }
      split; [|done].
      by apply (heap_filled_keeps_url send heap); [apply upload_channel_filled| |].
    + by apply (Hurls ref' r').
Qed.

Lemma filter_none {A} (f : A -> bool) l :
  (forall x, x ∈ l -> f x = false) -> List.filter f l = [].
Proof.
  induction l as [|x l IH]; intros Hall; simpl; [done|].
  rewrite (Hall x) by left. apply IH. intros y Hy. apply Hall. by right.
Qed.

(** X13. When the paste service answers every call with a URL, one pass over
    the selected reminders ends without an exception and leaves nothing
    to select at the same time: no reminder is uploaded a second time. *)
Theorem upload_leaves_nothing_upcoming send heap active now
    (Hans : always_answers send) :
  (create_pastebin_entries send heap
     (check_upcoming_reminders heap active now)).2 = None
  /\ check_upcoming_reminders
       (create_pastebin_entries send heap
          (check_upcoming_reminders heap active now)).1 active now
     = ∅.
Proof.
  set (upcoming := check_upcoming_reminders heap active now).
  assert (Hrun :
    (create_pastebin_entries send heap upcoming).2 = None
    /\ forall c refs ref r, upcoming !! c = Some refs -> ref ∈ refs ->
         heap !! ref = Some r ->
         exists r', (create_pastebin_entries send heap upcoming).1 !! ref = Some r'
                    /\ pastebin_url r' <> "").
  { rewrite create_pastebin_entries_fold. cbv zeta. simpl.
    cut ((fun state m =>
             state.2 = None
             /\ heap_filled_from send heap state.1.1
             /\ forall c refs ref r, m !! c = Some refs -> ref ∈ refs ->
                  heap !! ref = Some r ->
                  exists r', state.1.1 !! ref = Some r' /\ pastebin_url r' <> "")
           (map_fold (fun _ refs state =>
                        match state with
                        | (heap, calls, None) => upload_channel send refs heap calls
                        | failed => failed
                        end) (heap, O, None) upcoming) upcoming);
      [cbv beta; intros (Hok & _ & Hall); by split|].
    apply map_fold_weak_ind.
    - split; [done|]. split; [apply heap_filled_from_refl|].
      intros c refs ref r Hc. by rewrite lookup_empty in Hc.
    - intros c refs m [[heap' calls] failure] Hc (Hnone & Hfilled & Hurls).
      simpl in Hnone. subst failure.
      destruct (upload_channel_done send refs Hans heap' calls) as [Hok Hnew].
      pose proof (upload_channel_filled send refs heap' calls) as Hstep.
      split; [done|]. split; [by eapply heap_filled_from_trans|].
      intros c' refs' ref r Hc' Hin Hr.
      destruct (decide (c = c')) as [<-|Hne].
      + rewrite lookup_insert_eq in Hc'. injection Hc' as <-.
        specialize (Hfilled ref). rewrite Hr in Hfilled.
        destruct Hfilled as (r1 & Hr1 & _). by apply (Hnew ref r1).
      + rewrite lookup_insert_ne in Hc' by done.
        destruct (Hurls c' refs' ref r Hc' Hin Hr) as (r1 & Hr1 & Hurl).
        exists r1. split; [|done].
        by apply (heap_filled_keeps_url send heap'). }
  destruct Hrun as [Hnone Hurls]. split; [done|].
  pose proof (create_pastebin_entries_filled send heap upcoming) as Hfilled.
  apply map_eq. intros c. rewrite lookup_empty.
  unfold check_upcoming_reminders at 1. rewrite lookup_omap.
  destruct (active !! c) as [refs|] eqn:Hc; [|done]. simpl.
  rewrite filter_none; [done|].
  intros ref Hin.
  destruct (_ !! ref) as [r'|] eqn:Hr'; [|done].
  apply not_true_is_false. intros Hup.
  assert (Hurl' : pastebin_url r' = "").
  { unfold is_upcoming in Hup. apply andb_true_iff in Hup as [_ Hup].
    by apply length_zero_empty. }
  specialize (Hfilled ref). destruct (heap !! ref) as [r|] eqn:Hr; [|congruence].
  destruct Hfilled as (r'' & Hr'' & Hfrom).
  rewrite Hr' in Hr''. injection Hr'' as <-.
  destruct (filled_from_answered _ _ _ Hans Hfrom) as [->|Hne]; [|done].
  assert (Hsel : exists sel, upcoming !! c = Some sel /\ ref ∈ sel).
  { unfold upcoming, check_upcoming_reminders. rewrite lookup_omap, Hc. simpl.
    destruct (List.filter _ refs) as [|x sel] eqn:Hsel.
    - assert (ref ∈ List.filter
                (fun ref => match heap !! ref with
                            | Some reminder => is_upcoming now reminder
                            | None => false
                            end) refs) as Hmem.
      { apply list_elem_of_In, filter_In. split; [by apply list_elem_of_In|].
        by rewrite Hr. }
      rewrite Hsel in Hmem. by apply elem_of_nil in Hmem.
    - eexists. split; [done|]. rewrite <- Hsel.
      apply list_elem_of_In, filter_In. split; [by apply list_elem_of_In|].
      by rewrite Hr. }
  destruct Hsel as (sel & Hsel & Hmem).
  destruct (Hurls c sel ref r Hsel Hmem Hr) as (r1 & Hr1 & Hurl1).
  congruence.
Qed.

Lemma always_answers_sample : always_answers (fun _ _ => Some sample_url).
Proof. intros n text. exists sample_url. by split. Qed.

Lemma upload_leaves_nothing_upcoming_witness :
  (create_pastebin_entries (fun _ _ => Some sample_url) {[ 0%nat := sample_reminder ]}
     (check_upcoming_reminders {[ 0%nat := sample_reminder ]} sample_active
        sample_now)).2 = None
  /\ check_upcoming_reminders
       (create_pastebin_entries (fun _ _ => Some sample_url)
          {[ 0%nat := sample_reminder ]}
          (check_upcoming_reminders {[ 0%nat := sample_reminder ]} sample_active
             sample_now)).1 sample_active sample_now
     = ∅.
Proof.
  apply (upload_leaves_nothing_upcoming (fun _ _ => Some sample_url)
           {[ 0%nat := sample_reminder ]} sample_active sample_now
           always_answers_sample).
Defined.

(** ** The command that sets a reminder *)

Lemma persist_lookup reminders c r :
  channel_list (persist reminders c r) c = channel_list reminders c ++ [r].
Proof.
  unfold persist, channel_list. rewrite append_to_channel_insert.
  by rewrite lookup_insert_eq.
Qed.

Lemma persist_lookup_ne reminders c c' r :
  c <> c' -> persist reminders c r !! c' = reminders !! c'.
Proof.
  intros Hne. unfold persist. rewrite append_to_channel_insert.
  by rewrite lookup_insert_ne.
Qed.

(** X14. A call of [reminder_in] that raises leaves the store and the file as
    they were: nothing is appended before the reminder is complete. *)
Theorem reminder_in_failure_changes_nothing
    conf buffer reminders file write_ok snapshot_now save_now trigger args
    (Hraised : raised (reminder_in conf buffer reminders file write_ok
                         snapshot_now save_now trigger args) <> None) :
  reminders_after (reminder_in conf buffer reminders file write_ok
                     snapshot_now save_now trigger args) = reminders
  /\ file_after (reminder_in conf buffer reminders file write_ok
                   snapshot_now save_now trigger args) = file.
Proof.
  unfold reminder_in in *. destruct args as [args|]; [|done].
  destruct (parse_reminder_string args) as [[delta [message|]]|e]; try done.
  - destruct (create_reminder _ _ _ _ _ _ _); [|done].
    unfold persist_and_save, save_reminders_to_persistence in Hraised.
    by destruct write_ok.
  - by destruct e.
Qed.

Lemma reminder_in_failure_changes_nothing_witness :
  reminders_after (reminder_in default_settings ∅ sample_store None true
                     sample_time sample_time channel_trigger
                     (Some "tomorrow do the thing")) = sample_store
  /\ file_after (reminder_in default_settings ∅ sample_store None true
                   sample_time sample_time channel_trigger
                   (Some "tomorrow do the thing")) = None.
Proof.
  apply reminder_in_failure_changes_nothing. vm_compute. discriminate.
Defined.

(** X15. A call of [reminder_in] that does not raise has appended exactly one
    reminder, at the end of the list of the sender's conversation, and
    touched no other conversation; the reminder is set at the time of the
    trigger for the sender's nickname, with the parsed message and no
    URL; the only call made is the acknowledgement; and when the write
    succeeded the file holds the new store. *)
Theorem reminder_in_appends_one
    conf buffer reminders file write_ok snapshot_now save_now trigger args
    (Hok : raised (reminder_in conf buffer reminders file write_ok
                     snapshot_now save_now trigger args) = None) :
  exists text time_delta msg reminder,
    args = Some text
    /\ parse_reminder_string text = Ok (time_delta, Some msg)
    /\ datetime_add (time trigger) time_delta = Ok (due_at reminder)
    /\ set_at reminder = time trigger
    /\ nickname reminder = nick trigger
    /\ message reminder = msg
    /\ pastebin_url reminder = ""
    /\ channel_list (reminders_after
         (reminder_in conf buffer reminders file write_ok snapshot_now save_now
            trigger args)) (get_channel_from_sender trigger)
       = channel_list reminders (get_channel_from_sender trigger) ++ [reminder]
    /\ (forall c, c <> get_channel_from_sender trigger ->
          reminders_after
            (reminder_in conf buffer reminders file write_ok snapshot_now
               save_now trigger args) !! c = reminders !! c)
    /\ bot_calls (reminder_in conf buffer reminders file write_ok snapshot_now
                    save_now trigger args)
       = [Reply (acknowledgement time_delta reminder) (sender trigger)
            (nick trigger)]
    /\ (write_ok = true ->
        file_after (reminder_in conf buffer reminders file write_ok snapshot_now
                      save_now trigger args)
        = Some (Document (output_data save_now
                  (reminders_after
                     (reminder_in conf buffer reminders file write_ok
                        snapshot_now save_now trigger args))))).
Proof.
  unfold reminder_in in *. destruct args as [text|]; [|done].
  destruct (parse_reminder_string text) as [[delta [msg|]]|e] eqn:Hparse;
    [| done | by destruct e].
  destruct (create_reminder _ _ _ _ _ _ _) as [r|] eqn:Hcreate; [|done].
  exists text, delta, msg, r.
  assert (Hfields : datetime_add (time trigger) delta = Ok (due_at r)
                    /\ set_at r = time trigger /\ nickname r = nick trigger
                    /\ message r = msg
                    /\ pastebin_url r = "").
  { clear Hok. unfold create_reminder in Hcreate.
    destruct (datetime_add (time trigger) delta) as [due|]; [|done].
    simpl in Hcreate. destruct (_ && _).
    - destruct (capture_context_snapshot _ _); [|done].
      by injection Hcreate as <-.
    - by injection Hcreate as <-. }
  destruct Hfields as (Hdue & Hset & Hnick & Hmsg & Hurl).
  unfold persist_and_save, save_reminders_to_persistence.
  destruct write_ok; simpl.
  all: repeat apply conj; try done.
  all: try apply persist_lookup.
  all: intros c Hne; by apply persist_lookup_ne.
Qed.

Lemma reminder_in_appends_one_witness :
  exists text time_delta msg reminder,
    Some "2h 30m extra text" = Some text
    /\ parse_reminder_string text = Ok (time_delta, Some msg)
    /\ datetime_add (time channel_trigger) time_delta = Ok (due_at reminder)
    /\ set_at reminder = time channel_trigger
    /\ nickname reminder = nick channel_trigger
    /\ message reminder = msg
    /\ pastebin_url reminder = ""
    /\ channel_list (reminders_after
         (reminder_in default_settings ∅ sample_store None true sample_time
            sample_time channel_trigger (Some "2h 30m extra text")))
         (get_channel_from_sender channel_trigger)
       = channel_list sample_store (get_channel_from_sender channel_trigger)
         ++ [reminder]
    /\ (forall c, c <> get_channel_from_sender channel_trigger ->
          reminders_after
            (reminder_in default_settings ∅ sample_store None true sample_time
               sample_time channel_trigger (Some "2h 30m extra text")) !! c
          = sample_store !! c)
    /\ bot_calls (reminder_in default_settings ∅ sample_store None true
                    sample_time sample_time channel_trigger
                    (Some "2h 30m extra text"))
       = [Reply (acknowledgement time_delta reminder) (sender channel_trigger)
            (nick channel_trigger)]
    /\ (true = true ->
        file_after (reminder_in default_settings ∅ sample_store None true
                      sample_time sample_time channel_trigger
                      (Some "2h 30m extra text"))
        = Some (Document (output_data sample_time
                  (reminders_after
                     (reminder_in default_settings ∅ sample_store None true
                        sample_time sample_time channel_trigger
                        (Some "2h 30m extra text")))))).
Proof.
  apply reminder_in_appends_one. vm_compute. reflexivity.
Defined.
